(** * Sprites of the platformer: a shallow embedding of [sprites.py]

    Modelled here: [SpriteSheet.get_image], the [Player] class ([__init__],
    [load_images], [jump], [jump_cut], [update], [animate]) and the animation
    of [Slime].  Each method is a function on an explicit state record; what
    a method reads from pygame (held keys, the tick counter, the sprite
    groups) is an argument.

    Number model.  [pygame.math.Vector2] components are Python floats; they
    are modelled as exact rationals ([Q]), so the physics below is the
    real-number reading of the float code.  The one float product that is
    turned into an image size, [width * scale] of [SpriteSheet.get_image],
    is rounded to binary64 as Python does ([fl]).  [pygame.Rect]
    coordinates, millisecond ticks and frame indices are Python/C integers,
    modelled as [Z]; a [Rect] is modelled for coordinates inside the C [int]
    range, outside of which pygame refuses the assignment.  Python's
    [int()] truncates toward zero ([trunc]); a float stored into a [Rect]
    attribute is rounded to the nearest integer ([round_half_away]).

    The constants of [settings.py] are read through the record [Settings]. *)

From Stdlib Require Import ZArith QArith Qabs Qround Qpower List Bool Lia Lqa.
Import ListNotations.

Local Open Scope Z_scope.

(** ** Python results: a value, or an exception raised on a mutated object *)

(** [ZeroDivisionError] and [IndexError] are the built-in exceptions the
    methods below can raise.  [ConfigurationError] is not defined or raised
    anywhere in [sprites.py]; it is listed so that statements about it can be
    written down. *)
Inductive exn : Set :=
| ZeroDivisionError
| IndexError
| ConfigurationError.

(** A method call on object state [A] either returns, leaving the object in
    state [a], or raises [e], leaving the object as mutated so far. *)
Inductive result (A : Type) : Type :=
| Ok (a : A)
| Raise (e : exn) (a : A).
Arguments Ok {A} a.
Arguments Raise {A} e a.

Definition bind {A : Type} (r : result A) (k : A -> result A) : result A :=
  match r with
  | Ok a => k a
  | Raise e a => Raise e a
  end.

Notation "x <- r ;; k" := (bind r (fun x => k))
  (at level 61, r at next level, right associativity).

(** The object as the call left it, whether it returned or raised. *)
Definition state_of {A : Type} (r : result A) : A :=
  match r with
  | Ok a => a
  | Raise _ a => a
  end.

(** ** Python and C number helpers *)

(** Truncation toward zero: Python's [int(f)]. *)
Definition trunc (q : Q) : Z := Z.quot (Qnum q) (Zpos (Qden q)).

Definition Qlt_bool (a b : Q) : bool := negb (Qle_bool b a).

(** Python's [round(f)]: to the nearest integer, ties to the even one. *)
Definition py_round (q : Q) : Z :=
  let f := Qfloor q in
  let twice_frac := (2 * (q - inject_Z f))%Q in
  if Qlt_bool twice_frac 1 then f
  else if Qlt_bool 1 twice_frac then f + 1
  else if Z.even f then f else f + 1.

(** The nearest integer, a tie going away from zero: what pygame stores
    when a float is assigned to a [Rect] attribute. *)
Definition round_half_away (q : Q) : Z :=
  if Qle_bool 0 q then Qfloor (q + (1 # 2)) else - Qfloor (- q + (1 # 2)).

(** The values of a C [int]. *)
Definition c_int (z : Z) : bool := (-2147483648 <=? z) && (z <=? 2147483647).

(** [floor (log2 a)] for a positive rational [a]. *)
Definition ilog2 (a : Q) : Z :=
  let c := Z.log2 (Qnum a) - Z.log2 (Zpos (Qden a)) in
  if Qle_bool (2 ^ c) a then c else c - 1.

(** The binary64 value nearest to a rational, ties to the even mantissa:
    53 bits of mantissa, or multiples of [2^-1074] for subnormal values.
    This is the value a Python float literal has and the result of a float
    operation whose exact result is [q]. *)
Definition fl (q : Q) : Q :=
  if Qeq_bool q 0 then 0%Q
  else
    let a := Qabs q in
    let k := Z.max (ilog2 a - 52) (-1074) in
    let m := (inject_Z (py_round (a * 2 ^ (- k))) * 2 ^ k)%Q in
    if Qle_bool 0 q then m else (- m)%Q.

(** [fl], or [None] where binary64 overflows to an infinity. *)
Definition to_double (q : Q) : option Q :=
  let r := fl q in
  if Qlt_bool (Qabs r) (2 ^ 1024) then Some r else None.

(** [l[i]] for a Python list: negative indices count from the end, anything
    out of range raises [IndexError] ([None]). *)
Definition py_index {A : Type} (l : list A) (i : Z) : option A :=
  let n := Z.of_nat (length l) in
  if 0 <=? i then nth_error l (Z.to_nat i)
  else if 0 <=? n + i then nth_error l (Z.to_nat (n + i))
  else None.

(** [a or b] on lists: [a] when it is non-empty, else [b]. *)
Definition py_or {A : Type} (a b : list A) : list A :=
  match a with
  | [] => b
  | _ :: _ => a
  end.

Definition truthy {A : Type} (l : list A) : bool :=
  match l with
  | [] => false
  | _ :: _ => true
  end.

(** ** pygame: vectors, surfaces, rectangles, collision *)

Module Vector2.

Record t : Set := vec { x : Q; y : Q }.

Definition add (a b : t) : t := vec (x a + x b) (y a + y b).
Definition scale (k : Q) (a : t) : t := vec (k * x a) (k * y a).
Definition set_x (a : t) (v : Q) : t := vec v (y a).
Definition set_y (a : t) (v : Q) : t := vec (x a) v.

End Vector2.

Module Surface.

(** An image: its pixel size, the asset it was cut or loaded from, and
    whether it was mirrored horizontally. *)
Record t : Set := mk { width : Z; height : Z; asset : nat; mirrored : bool }.

(** [pygame.transform.scale(img, (w, h))] *)
Definition scale (img : t) (w h : Z) : t := mk w h (asset img) (mirrored img).

(** [pygame.transform.flip(img, True, False)] *)
Definition flip (img : t) : t :=
  mk (width img) (height img) (asset img) (negb (mirrored img)).

End Surface.

Module Rect.

Record t : Set := mk { x : Z; y : Z; w : Z; h : Z }.

Definition left (r : t) : Z := x r.
Definition bottom (r : t) : Z := y r + h r.
Definition right (r : t) : Z := x r + w r.

Definition set_x (r : t) (v : Z) : t := mk v (y r) (w r) (h r).
Definition set_y (r : t) (v : Z) : t := mk (x r) v (w r) (h r).
Definition set_bottom (r : t) (v : Z) : t := set_y r (v - h r).

(** [r.center = (cx, cy)] *)
Definition set_center (r : t) (cx cy : Z) : t :=
  mk (cx - w r / 2) (cy - h r / 2) (w r) (h r).

(** [r.midbottom = v] for a float vector [v]: both components are rounded
    to the nearest integer, then the rectangle is placed with its
    bottom-centre there.  (pygame raises [TypeError] when a rounded
    component is not a C [int]; the model is for components that are.) *)
Definition set_midbottom (r : t) (v : Vector2.t) : t :=
  mk (round_half_away (Vector2.x v) - w r / 2)
     (round_half_away (Vector2.y v) - h r) (w r) (h r).

(** [img.get_rect()]: the image's size at the origin. *)
Definition of_surface (img : Surface.t) : t :=
  mk 0 0 (Surface.width img) (Surface.height img).

(** [a.colliderect(b)] *)
Definition colliderect (a b : t) : bool :=
  (x a <? x b + w b) && (y a <? y b + h b) &&
  (x b <? x a + w a) && (y b <? y a + h a).

End Rect.

(** [pygame.sprite.spritecollide(sprite, group, False)]: the members of
    [group] whose rect overlaps the sprite's; a group is given by the rects of
    its members, and nothing is removed from it. *)
Definition spritecollide (r : Rect.t) (group : list Rect.t) : list Rect.t :=
  filter (Rect.colliderect r) group.

(** The sprite groups of the game object.  A sprite carries the list of
    groups it belongs to; [Sprite.kill()] takes it out of all of them. *)
Module Group.

Inductive t : Set :=
| all_sprites
| platforms
| bases
| enemies
| clouds.

End Group.

Definition kill (groups : list Group.t) : list Group.t := [].

(** Writing the [layer] property of a [pygame.sprite.Sprite].  The setter
    asks [alive()], which reads the table of groups that [Sprite.__init__]
    creates: before [Sprite.__init__] has run ([None]) there is no table and
    the write raises [AttributeError]; once the sprite is in a group the
    setter refuses with [AttributeError] too.  (The plain attribute
    [_layer], which the other sprite classes write, has no setter.) *)
Definition set_layer_property (group_table : option (list Group.t))
  : option unit :=
  match group_table with
  | Some [] => Some tt
  | _ => None
  end.

(** [random.randrange(a, b)], with the generator's draw as an argument:
    some integer of [a, b), or [ValueError] ([None]) on an empty range. *)
Definition randrange (a b draw : Z) : option Z :=
  if a <? b then Some (a + draw mod (b - a)) else None.

(** [random.choice(seq)]: one element of [seq], or [IndexError] ([None])
    on an empty one. *)
Definition choice {A : Type} (seq : list A) (draw : Z) : option A :=
  match seq with
  | [] => None
  | _ :: _ => nth_error seq (Z.to_nat (draw mod Z.of_nat (length seq)))
  end.

(** The held-keys snapshot of [pygame.key.get_pressed()]. *)
Record Keys : Set := { K_LEFT : bool; K_RIGHT : bool }.

(** ** settings.py *)

Record Settings : Set := {
  WIDTH : Z;
  HEIGHT : Z;
  BASE_HEIGHT : Z;
  PLAYER_ACC : Q;
  PLAYER_FRICTION : Q;
  PLAYER_GRAV : Q;
  PLAYER_JUMP_VEL : Q;
  JUMP_THRESHOLD : Q;
  PLAYER_RUN_FREQ : Z;
  PLAYER_IDLE_FREQ : Z
}.

(** ** SpriteSheet *)

Module SpriteSheet.

(** [width * scale] for an [int] and a float: the float nearest to the
    exact product of [width] and the float [scale] is ([scale] is read as
    the float nearest to the given rational, as a literal is); [None] when
    a float here is an infinity or not a number, on which [int()] raises. *)
Definition int_times_float (width : Z) (scale : Q) : option Q :=
  match to_double scale with
  | None => None
  | Some f => to_double (inject_Z width * f)
  end.

(** [get_image(x, y, width, height, scale)]: a [width] x [height] surface
    is cut at [(x, y)] and rescaled to [(int(width * scale),
    int(height * scale))].  The call raises ([None]) where pygame does:
    [pygame.Surface] on a negative size, [blit] and the two constructors on
    a number that is no C [int], [int()] on an infinity, and
    [pygame.transform.scale] on a negative size.  Running out of memory on
    a huge surface is not modelled. *)
Definition get_image (sheet : nat) (x y width height : Z) (scale : Q)
  : option Surface.t :=
  if (0 <=? width) && (0 <=? height) && c_int width && c_int height
     && c_int x && c_int y
  then
    let image := Surface.mk width height sheet false in
    match int_times_float width scale, int_times_float height scale with
    | Some pw, Some ph =>
        let sw := trunc pw in
        let sh := trunc ph in
        if (0 <=? sw) && (0 <=? sh) && c_int sw && c_int sh
        then Some (Surface.scale image sw sh)
        else None
    | _, _ => None
    end
  else None.

(** The image of a [get_image] call that returns.  The callers in this
    module pass constants for which it does ([get_image_constants]). *)
Definition loaded (o : option Surface.t) : Surface.t :=
  match o with
  | Some img => img
  | None => Surface.mk 0 0 0 false
  end.

(** The default [scale=0.5]. *)
Definition default_scale : Q := 0.5.

End SpriteSheet.


(** ** Player *)

Module Player.

(** The frame lists built by [load_images]. *)
Record Frames : Set := {
  standing_frames_r : list Surface.t;
  standing_frames_l : list Surface.t;
  hurt_frames_r : list Surface.t;
  hurt_frames_l : list Surface.t;
  jumping_frames_r : list Surface.t;
  jumping_frames_l : list Surface.t;
  run_frames_r : list Surface.t;
  run_frames_l : list Surface.t;
  shooting_frames_r : list Surface.t;
  shooting_frames_l : list Surface.t
}.

(** One directory of [load_images]: every file is loaded and rescaled to a
    fifth of its size. *)
Definition load_dir (files : list Surface.t) : list Surface.t :=
  map (fun frame =>
         Surface.scale frame
           (trunc (inject_Z (Surface.width frame) * 0.2))
           (trunc (inject_Z (Surface.height frame) * 0.2)))
      files.

(** [load_images], given the images found in the five directories; each
    left-facing list mirrors the right-facing one. *)
Definition load_images (stand hurt jump run shot : list Surface.t) : Frames :=
  let sr := load_dir stand in
  let hr := load_dir hurt in
  let jr := load_dir jump in
  let rr := load_dir run in
  let tr := load_dir shot in
  {| standing_frames_r := sr; standing_frames_l := map Surface.flip sr;
     hurt_frames_r := hr; hurt_frames_l := map Surface.flip hr;
     jumping_frames_r := jr; jumping_frames_l := map Surface.flip jr;
     run_frames_r := rr; run_frames_l := map Surface.flip rr;
     shooting_frames_r := tr; shooting_frames_l := map Surface.flip tr |}.

Record t : Set := mk {
  running : bool;
  jumping : bool;
  isRight : bool;
  current_frame : Z;
  last_update : Z;
  frames : Frames;
  image : Surface.t;
  rect : Rect.t;
  mask : option Surface.t;
  pos : Vector2.t;
  vel : Vector2.t;
  acc : Vector2.t
}.

Definition set_running (p : t) (v : bool) : t :=
  mk v (jumping p) (isRight p) (current_frame p) (last_update p) (frames p)
     (image p) (rect p) (mask p) (pos p) (vel p) (acc p).
Definition set_jumping (p : t) (v : bool) : t :=
  mk (running p) v (isRight p) (current_frame p) (last_update p) (frames p)
     (image p) (rect p) (mask p) (pos p) (vel p) (acc p).
Definition set_current_frame (p : t) (v : Z) : t :=
  mk (running p) (jumping p) (isRight p) v (last_update p) (frames p)
     (image p) (rect p) (mask p) (pos p) (vel p) (acc p).
Definition set_last_update (p : t) (v : Z) : t :=
  mk (running p) (jumping p) (isRight p) (current_frame p) v (frames p)
     (image p) (rect p) (mask p) (pos p) (vel p) (acc p).
Definition set_image (p : t) (v : Surface.t) : t :=
  mk (running p) (jumping p) (isRight p) (current_frame p) (last_update p)
     (frames p) v (rect p) (mask p) (pos p) (vel p) (acc p).
Definition set_rect (p : t) (v : Rect.t) : t :=
  mk (running p) (jumping p) (isRight p) (current_frame p) (last_update p)
     (frames p) (image p) v (mask p) (pos p) (vel p) (acc p).
Definition set_mask (p : t) (v : option Surface.t) : t :=
  mk (running p) (jumping p) (isRight p) (current_frame p) (last_update p)
     (frames p) (image p) (rect p) v (pos p) (vel p) (acc p).
Definition set_pos (p : t) (v : Vector2.t) : t :=
  mk (running p) (jumping p) (isRight p) (current_frame p) (last_update p)
     (frames p) (image p) (rect p) (mask p) v (vel p) (acc p).
Definition set_vel (p : t) (v : Vector2.t) : t :=
  mk (running p) (jumping p) (isRight p) (current_frame p) (last_update p)
     (frames p) (image p) (rect p) (mask p) (pos p) v (acc p).
Definition set_acc (p : t) (v : Vector2.t) : t :=
  mk (running p) (jumping p) (isRight p) (current_frame p) (last_update p)
     (frames p) (image p) (rect p) (mask p) (pos p) (vel p) v.

(** [__init__], after [load_images] produced [f].  [standing_frames_r[0]]
    raises [IndexError] on an empty list: no player is built ([None]). *)
Definition init (s : Settings) (f : Frames) : option t :=
  match py_index (standing_frames_r f) 0 with
  | None => None
  | Some img =>
      Some (mk false false true 0 0 f img
               (Rect.set_center (Rect.of_surface img) 20 (HEIGHT s - 50))
               None
               (Vector2.vec 40 (inject_Z (HEIGHT s - 50)))
               (Vector2.vec 0 0)
               (Vector2.vec 0 0))
  end.

(** [jump]: the rect is moved 2 pixels to the right for the two overlap
    tests and moved back; the jump starts when something was hit and the
    player is not already jumping. *)
Definition jump (s : Settings) (platforms bases : list Rect.t) (p : t) : t :=
  let p := set_rect p (Rect.set_x (rect p) (Rect.x (rect p) + 2)) in
  let plat_hits := spritecollide (rect p) platforms in
  let base_hits := spritecollide (rect p) bases in
  let p := set_rect p (Rect.set_x (rect p) (Rect.x (rect p) - 2)) in
  let hits := py_or plat_hits base_hits in
  if truthy hits && negb (jumping p) then
    let p := set_jumping p true in
    set_vel p (Vector2.set_y (vel p) (PLAYER_JUMP_VEL s * -1))
  else p.

(** [jump_cut] *)
Definition jump_cut (s : Settings) (p : t) : t :=
  if jumping p then
    if Qlt_bool (Vector2.y (vel p)) (JUMP_THRESHOLD s * -1) then
      set_vel p (Vector2.set_y (vel p) (JUMP_THRESHOLD s * -1))
    else p
  else p.

(** One frame change of [animate]: [last_update] is stamped, the index
    advances modulo the length of [counted], and the frame is taken from
    [shown]; the new rect keeps the old bottom edge.  A zero length raises
    [ZeroDivisionError] (after the stamp), an index outside [shown] raises
    [IndexError] (after the index was stored). *)
Definition next_frame (now : Z) (counted shown : list Surface.t) (p : t)
  : result t :=
  let p := set_last_update p now in
  let n := Z.of_nat (length counted) in
  if n =? 0 then Raise ZeroDivisionError p
  else
    let p := set_current_frame p ((current_frame p + 1) mod n) in
    let bottom := Rect.bottom (rect p) in
    match py_index shown (current_frame p) with
    | None => Raise IndexError p
    | Some img =>
        let p := set_image p img in
        let p := set_rect p (Rect.of_surface (image p)) in
        Ok (set_rect p (Rect.set_bottom (rect p) bottom))
    end.

(** The running block of [animate]. *)
Definition animate_run (s : Settings) (now : Z) (p : t) : result t :=
  if running p then
    if PLAYER_RUN_FREQ s <? now - last_update p then
      next_frame now (run_frames_l (frames p))
        (if Qlt_bool 0 (Vector2.x (vel p))
         then run_frames_r (frames p) else run_frames_l (frames p))
        p
    else Ok p
  else Ok p.

(** The idle block of [animate]. *)
Definition animate_idle (s : Settings) (now : Z) (p : t) : result t :=
  if negb (jumping p) && negb (running p) then
    if PLAYER_IDLE_FREQ s <? now - last_update p then
      next_frame now (standing_frames_r (frames p))
        (if Qlt_bool 0 (Vector2.x (pos p))
         then standing_frames_r (frames p) else standing_frames_l (frames p))
        p
    else Ok p
  else Ok p.

(** [animate], with [now = pygame.time.get_ticks()]. *)
Definition animate (s : Settings) (now : Z) (p : t) : result t :=
  let p := set_running p (negb (Qeq_bool (Vector2.x (vel p)) 0)) in
  p <- animate_run s now p ;;
  p <- animate_idle s now p ;;
  Ok (set_mask p (Some (image p))).

(** The steps of [update] after [animate], in source order. *)

Definition apply_gravity (s : Settings) (p : t) : t :=
  set_acc p (Vector2.vec 0 (PLAYER_GRAV s)).

Definition apply_input (s : Settings) (keys : Keys) (p : t) : t :=
  if K_LEFT keys then
    set_acc p (Vector2.set_x (acc p) (PLAYER_ACC s * -1))
  else if K_RIGHT keys then
    set_acc p (Vector2.set_x (acc p) (PLAYER_ACC s))
  else p.

Definition apply_friction (s : Settings) (p : t) : t :=
  set_acc p (Vector2.set_x (acc p)
    (Vector2.x (acc p) + Vector2.x (vel p) * PLAYER_FRICTION s * -1)).

Definition integrate_velocity (p : t) : t :=
  set_vel p (Vector2.add (vel p) (acc p)).

Definition deadzone (p : t) : t :=
  if Qlt_bool (Qabs (Vector2.x (vel p))) 0.1 then
    set_vel p (Vector2.set_x (vel p) 0)
  else p.

Definition integrate_position (p : t) : t :=
  set_pos p (Vector2.add (pos p)
               (Vector2.add (vel p) (Vector2.scale 0.5 (acc p)))).

Definition clamp_left (p : t) : t :=
  if Rect.left (rect p) <? 0 then
    set_pos p (Vector2.set_x (pos p) (inject_Z (Rect.left (rect p) + 50)))
  else p.

Definition sync_rect (p : t) : t :=
  set_rect p (Rect.set_midbottom (rect p) (pos p)).

(** The acceleration and velocity part of [update]: gravity, input,
    friction, [vel += acc], and the dead zone. *)
Definition velocity_step (s : Settings) (keys : Keys) (p : t) : t :=
  deadzone
    (integrate_velocity
       (apply_friction s (apply_input s keys (apply_gravity s p)))).

(** Everything [update] does after [animate] returned. *)
Definition physics (s : Settings) (keys : Keys) (p : t) : t :=
  sync_rect (clamp_left (integrate_position (velocity_step s keys p))).

(** [update], with [keys = pygame.key.get_pressed()] and the tick count
    [now] read by [animate]. *)
Definition update (s : Settings) (keys : Keys) (now : Z) (p : t) : result t :=
  p <- animate s now p ;;
  Ok (physics s keys p).

(** The method calls a driver can make on a player, with what each one
    reads from outside: the key snapshot, the tick count, the sprite groups. *)
Inductive call : Set :=
| Update (keys : Keys) (now : Z)
| Animate (now : Z)
| Jump (platforms bases : list Rect.t)
| JumpCut.

Definition step (s : Settings) (c : call) (p : t) : result t :=
  match c with
  | Update keys now => update s keys now p
  | Animate now => animate s now p
  | Jump platforms bases => Ok (jump s platforms bases p)
  | JumpCut => Ok (jump_cut s p)
  end.

(** A sequence of calls; an exception ends it. *)
Fixpoint run (s : Settings) (cs : list call) (p : t) : result t :=
  match cs with
  | [] => Ok p
  | c :: cs' => p' <- step s c p ;; run s cs' p'
  end.

(** Frame lists on which [animate] cannot raise: the two lists whose
    lengths are taken are non-empty and their mirrored lists are as long. *)
Definition frames_ok (f : Frames) : Prop :=
  (0 < length (run_frames_l f))%nat /\
  length (run_frames_r f) = length (run_frames_l f) /\
  (0 < length (standing_frames_r f))%nat /\
  length (standing_frames_l f) = length (standing_frames_r f).

End Player.

(** ** Slime *)

Module Slime.

Record t : Set := mk {
  current_frame : Z;
  last_update : Z;
  walk_images : list Surface.t;
  die_image : Surface.t;
  image : Surface.t;
  rect : Rect.t;
  mask : option Surface.t;
  vx : Z
}.

Definition set_current_frame (e : t) (v : Z) : t :=
  mk v (last_update e) (walk_images e) (die_image e) (image e) (rect e)
     (mask e) (vx e).
Definition set_last_update (e : t) (v : Z) : t :=
  mk (current_frame e) v (walk_images e) (die_image e) (image e) (rect e)
     (mask e) (vx e).
Definition set_image (e : t) (v : Surface.t) : t :=
  mk (current_frame e) (last_update e) (walk_images e) (die_image e) v
     (rect e) (mask e) (vx e).
Definition set_mask (e : t) (v : option Surface.t) : t :=
  mk (current_frame e) (last_update e) (walk_images e) (die_image e)
     (image e) (rect e) v (vx e).

(** [load_images]: two walk frames and the die frame, cut from the enemy
    sheet. *)
Definition load_walk_images (sheet : nat) : list Surface.t :=
  [ SpriteSheet.loaded (SpriteSheet.get_image sheet 52 125 50 28 1.5);
    SpriteSheet.loaded (SpriteSheet.get_image sheet 0 125 51 26 1.5) ].

Definition load_die_image (sheet : nat) : Surface.t :=
  SpriteSheet.loaded
    (SpriteSheet.get_image sheet 0 112 59 12 SpriteSheet.default_scale).

(** The frame change of [animate]: the walk cycle advances modulo the
    number of walk images. *)
Definition next_frame (now : Z) (e : t) : result t :=
  let e := set_last_update e now in
  let n := Z.of_nat (length (walk_images e)) in
  if n =? 0 then Raise ZeroDivisionError e
  else
    let e := set_current_frame e ((current_frame e + 1) mod n) in
    match py_index (walk_images e) (current_frame e) with
    | None => Raise IndexError e
    | Some img => Ok (set_image e img)
    end.

(** [animate], with [now = pygame.time.get_ticks()]. *)
Definition animate (now : Z) (e : t) : result t :=
  e <- (if 180 <? now - last_update e then next_frame now e else Ok e) ;;
  Ok (set_mask e (Some (image e))).

Definition set_rect (e : t) (v : Rect.t) : t :=
  mk (current_frame e) (last_update e) (walk_images e) (die_image e)
     (image e) v (mask e) (vx e).

(** [__init__].  Its first statement writes [self.layer], before
    [Sprite.__init__] has run.  After it the slime would join [all_sprites]
    and [enemies], start just past the right screen edge, 5 pixels into the
    base, with a speed drawn from 1, 2, 3.  [None] is a raised exception. *)
Definition init (s : Settings) (sheet : nat) (draw : Z)
  : option (t * list Group.t) :=
  match set_layer_property None with
  | None => None
  | Some _ =>
      let walk := load_walk_images sheet in
      match py_index walk 0, randrange 1 4 draw with
      | Some img, Some speed =>
          let r := Rect.of_surface img in
          let r := Rect.set_x r (WIDTH s) in
          let r := Rect.set_bottom r (HEIGHT s - BASE_HEIGHT s + 5) in
          Some (mk 0 0 walk (load_die_image sheet) img r None speed,
                [Group.all_sprites; Group.enemies])
      | _, _ => None
      end
  end.

(** [update]: animate, move left by [vx], and leave every group once the
    right edge is left of the screen. *)
Definition update (now : Z) (eg : t * list Group.t)
  : result (t * list Group.t) :=
  match animate now (fst eg) with
  | Raise x e => Raise x (e, snd eg)
  | Ok e =>
      let e := set_rect e (Rect.set_x (rect e) (Rect.x (rect e) - vx e)) in
      if Rect.right (rect e) <? 0 then Ok (e, kill (snd eg))
      else Ok (e, snd eg)
  end.

(** [update] called once per tick count of [nows]; an exception ends the
    sequence. *)
Fixpoint run (nows : list Z) (eg : t * list Group.t)
  : result (t * list Group.t) :=
  match nows with
  | [] => Ok eg
  | now :: nows' => eg' <- update now eg ;; run nows' eg'
  end.

End Slime.

(** ** Cloud *)

Module Cloud.

Record t : Set := mk {
  image : Surface.t;
  rect : Rect.t;
  groups : list Group.t
}.

(** [__init__], given [game.cloud_images] and the four random draws.  The
    rect is taken from the chosen image before the image is rescaled by a
    factor of 0.50 to 1.00, and is then only moved. *)
Definition init (s : Settings) (cloud_images : list Surface.t)
    (d_image d_scale d_x d_y : Z) : option t :=
  match choice cloud_images d_image with
  | None => None
  | Some img =>
      let r := Rect.of_surface img in
      match randrange 50 101 d_scale with
      | None => None
      | Some pct =>
          let scale := (inject_Z pct / 100)%Q in
          let img :=
            Surface.scale img (trunc (inject_Z (Rect.w r) * scale))
                              (trunc (inject_Z (Rect.h r) * scale)) in
          match randrange (WIDTH s) (WIDTH s + Rect.w r) d_x with
          | None => None
          | Some x =>
              let r := Rect.set_x r x in
              match randrange 0 (HEIGHT s - 350) d_y with
              | None => None
              | Some y =>
                  Some (mk img (Rect.set_y r y) [Group.all_sprites; Group.clouds])
              end
          end
      end
  end.

(** [update] *)
Definition update (c : t) : t :=
  if Rect.right (rect c) <? 0 then mk (image c) (rect c) (kill (groups c))
  else c.

End Cloud.

(** ** Platform *)

Module Platform.

Record t : Set := mk {
  image : Surface.t;
  rect : Rect.t;
  groups : list Group.t
}.

(** [__init__]: one of four crops of the platform sheet at the default
    scale, placed with its top-left corner at [(x, y)]. *)
Definition init (sheet : nat) (x y draw : Z) : option t :=
  let images :=
    map SpriteSheet.loaded
      [ SpriteSheet.get_image sheet 0 96 380 94 SpriteSheet.default_scale;
        SpriteSheet.get_image sheet 0 192 380 94 SpriteSheet.default_scale;
        SpriteSheet.get_image sheet 382 408 200 100 SpriteSheet.default_scale;
        SpriteSheet.get_image sheet 232 1288 200 100
          SpriteSheet.default_scale ]
  in
  match choice images draw with
  | None => None
  | Some img =>
      let r := Rect.of_surface img in
      let r := Rect.set_x r x in
      Some (mk img (Rect.set_y r y) [Group.all_sprites; Group.platforms])
  end.

End Platform.


(** ** Horizontal velocity under friction alone *)

(** What one [velocity_step] with no key held does to [vel.x], for the
    friction coefficient [f]: [acc.x = 0 + vel.x * f * -1], [vel.x += acc.x],
    and the dead zone. *)
Definition decay (f v : Q) : Q :=
  let v' := (v + (0 + v * f * -1))%Q in
  if Qlt_bool (Qabs v') 0.1 then 0%Q else v'.

(** A number of ticks after which [vel.x] has reached 0, from the start
    value [v]: more than [10 |v| / (1 - |1 - f|)]. *)
Definition friction_ticks (f v : Q) : nat :=
  S (Z.to_nat (Qceiling (10 * Qabs v / (1 - Qabs (1 - f))))).

(** ** Concrete settings, frames and players used in the examples *)

Definition cfg : Settings :=
  {| WIDTH := 800; HEIGHT := 600; BASE_HEIGHT := 100;
     PLAYER_ACC := 0.5; PLAYER_FRICTION := 0.12; PLAYER_GRAV := 0.8;
     PLAYER_JUMP_VEL := 20; JUMP_THRESHOLD := 3;
     PLAYER_RUN_FREQ := 80; PLAYER_IDLE_FREQ := 200 |}.

Definition no_keys : Keys := {| K_LEFT := false; K_RIGHT := false |}.
Definition left_key : Keys := {| K_LEFT := true; K_RIGHT := false |}.
Definition right_key : Keys := {| K_LEFT := false; K_RIGHT := true |}.
Definition both_keys : Keys := {| K_LEFT := true; K_RIGHT := true |}.

(** Image files of 100 x 200 and 110 x 210 pixels for standing, and of
    100 x 200 and 120 x 190 pixels for running. *)
Definition small_frames : Player.Frames :=
  Player.load_images
    [Surface.mk 100 200 0 false; Surface.mk 110 210 1 false] [] []
    [Surface.mk 100 200 2 false; Surface.mk 120 190 3 false] [].

(** The same standing images with an empty run directory. *)
Definition no_run_frames : Player.Frames :=
  Player.load_images
    [Surface.mk 100 200 0 false; Surface.mk 110 210 1 false] [] [] [] [].

(** A single 600 x 700 pixel image in each of the two directories. *)
Definition wide_frames : Player.Frames :=
  Player.load_images [Surface.mk 600 700 0 false] [] []
                     [Surface.mk 600 700 1 false] [].

(** The player [__init__] builds on [f]; [fallback] stands for "no player". *)
Definition new_player (f : Player.Frames) : Player.t :=
  match Player.init cfg f with
  | Some p => p
  | None =>
      Player.mk false false true 0 0 f (Surface.mk 0 0 0 false)
        (Rect.mk 0 0 0 0) None (Vector2.vec 0 0) (Vector2.vec 0 0)
        (Vector2.vec 0 0)
  end.

(** A 20 x 40 pixel player standing with its left edge on the screen edge:
    [pos = (10, 550)] and the rect in step with it. *)
Definition edge_player : Player.t :=
  let p := new_player small_frames in
  let p := Player.set_pos p (Vector2.vec 10 550) in
  Player.set_rect p (Rect.set_midbottom (Player.rect p) (Player.pos p)).

(** A player in mid-jump, rising at 12 pixels per tick. *)
Definition rising_player : Player.t :=
  let p := new_player small_frames in
  let p := Player.set_jumping p true in
  Player.set_vel p (Vector2.vec 0 (-12)).

(** The player built on an empty run directory, after one tick with the
    right key held. *)
Definition moving_player : Player.t :=
  state_of (Player.update cfg right_key 0 (new_player no_run_frames)).

(** [edge_player] after one and after two ticks with the left key held. *)
Definition edge_tick1 : Player.t :=
  state_of (Player.update cfg left_key 0 edge_player).
Definition edge_tick2 : Player.t :=
  state_of (Player.update cfg left_key 0 edge_tick1).

(** The start player on the 120 x 140 frames, and after its first tick with
    the left key held. *)
Definition wide_player : Player.t := new_player wide_frames.
Definition wide_tick1 : Player.t :=
  state_of (Player.update cfg left_key 0 wide_player).

(** The start player on the small frames after its first tick, no key
    held. *)
Definition first_tick : Player.t :=
  state_of (Player.update cfg no_keys 0 (new_player small_frames)).

(** A player running right at 5 pixels per tick. *)
Definition running_player : Player.t :=
  Player.set_vel (new_player small_frames) (Vector2.vec 5 0).

(** A platform under the start position and an empty base group. *)
Definition some_platforms : list Rect.t := [Rect.mk 0 560 190 47].
Definition no_bases : list Rect.t := [].

Definition some_slime : Slime.t :=
  let walk := Slime.load_walk_images 7 in
  Slime.mk 0 0 walk (Slime.load_die_image 7)
           (Surface.mk 75 42 7 false) (Rect.mk 800 463 75 42) None 2.

(** [wide_player] after a first tick at 500 ms, no key held: the idle
    frame changes on that tick. *)
Definition wide_tick_frame : Player.t :=
  state_of (Player.update cfg no_keys 500 wide_player).

(** A slime of speed 2 at the right screen edge, 5 pixels into the base,
    in its two groups. *)
Definition new_slime : Slime.t * list Group.t :=
  (some_slime, [Group.all_sprites; Group.enemies]).

(** Two cloud images. *)
Definition cloud_images : list Surface.t :=
  [Surface.mk 128 71 10 false; Surface.mk 129 63 11 false].

(** The start player after three ticks of [update], different keys held. *)
Definition fall_tick3 : Player.t :=
  state_of
    (Player.run cfg
       (map (fun t => Player.Update (fst t) (snd t))
          [(no_keys, 0); (right_key, 16); (left_key, 33)])
       (new_player small_frames)).

(** ** Predicates on player states *)

(** The rect has the size of the current image. *)
Definition rect_fits (p : Player.t) : Prop :=
  Rect.w (Player.rect p) = Surface.width (Player.image p) /\
  Rect.h (Player.rect p) = Surface.height (Player.image p).

(** The horizontal speed is at most [PLAYER_ACC / PLAYER_FRICTION]. *)
Definition within_terminal_speed (s : Settings) (p : Player.t) : Prop :=
  (PLAYER_FRICTION s * Qabs (Vector2.x (Player.vel p)) <= PLAYER_ACC s)%Q.

(** * Properties *)

(** ** Number helpers *)

Lemma Qlt_bool_iff (a b : Q) : Qlt_bool a b = true <-> (a < b)%Q.
Proof.
  unfold Qlt_bool. rewrite negb_true_iff. split; intro H.
  - apply Qnot_le_lt. intro Hle. apply Qle_bool_iff in Hle. congruence.
  - destruct (Qle_bool b a) eqn:E; [|reflexivity].
    apply Qle_bool_iff in E. exfalso. apply (Qlt_not_le _ _ H E).
Qed.

Lemma Qlt_bool_false_iff (a b : Q) : Qlt_bool a b = false <-> (b <= a)%Q.
Proof.
  unfold Qlt_bool. rewrite negb_false_iff. apply Qle_bool_iff.
Qed.

Lemma trunc_inject_Z (z : Z) : trunc (inject_Z z) = z.
Proof. unfold trunc. simpl. apply Z.quot_1_r. Qed.

Lemma Qfloor_unique (f : Z) (x : Q) :
  (inject_Z f <= x < inject_Z f + 1)%Q -> Qfloor x = f.
Proof.
  intros [L U].
  pose proof (Qfloor_le x) as FL. pose proof (Qlt_floor x) as FU.
  rewrite inject_Z_plus in FU. change (inject_Z 1) with 1%Q in FU.
  assert (A : (inject_Z (Qfloor x) < inject_Z (f + 1))%Q)
    by (rewrite inject_Z_plus; change (inject_Z 1) with 1%Q; lra).
  assert (B : (inject_Z f < inject_Z (Qfloor x + 1))%Q)
    by (rewrite inject_Z_plus; change (inject_Z 1) with 1%Q; lra).
  rewrite <- Zlt_Qlt in A, B. lia.
Qed.

Lemma round_half_away_inject_Z (z : Z) : round_half_away (inject_Z z) = z.
Proof.
  unfold round_half_away. destruct (Qle_bool 0 (inject_Z z)).
  - apply Qfloor_unique. split; lra.
  - assert (E : Qfloor (- inject_Z z + (1 # 2)) = - z).
    { apply Qfloor_unique. rewrite inject_Z_opp. split; lra. }
    rewrite E. lia.
Qed.

(** Rounding moves a number by at most a half. *)
Lemma round_half_away_near (q : Q) :
  (Qabs (q - inject_Z (round_half_away q)) <= 1 # 2)%Q.
Proof.
  apply Qabs_Qle_condition. unfold round_half_away.
  destruct (Qle_bool 0 q).
  - pose proof (Qfloor_le (q + (1 # 2))) as L.
    pose proof (Qlt_floor (q + (1 # 2))) as U.
    rewrite inject_Z_plus in U. change (inject_Z 1) with 1%Q in U.
    split; lra.
  - pose proof (Qfloor_le (- q + (1 # 2))) as L.
    pose proof (Qlt_floor (- q + (1 # 2))) as U.
    rewrite inject_Z_plus in U. change (inject_Z 1) with 1%Q in U.
    rewrite inject_Z_opp. split; lra.
Qed.

(** On a non-negative rational, truncation is the floor. *)
Lemma trunc_floor (q : Q) : (0 <= q)%Q -> trunc q = Qfloor q.
Proof.
  destruct q as [n d]. unfold Qle, trunc, Qfloor. simpl. intro H.
  apply Z.quot_div_nonneg; lia.
Qed.

Lemma py_index_mod {A : Type} (l : list A) (c : Z) :
  (0 < length l)%nat ->
  exists a, py_index l ((c + 1) mod Z.of_nat (length l)) = Some a.
Proof.
  intro Hl. unfold py_index.
  assert (Hm : 0 <= (c + 1) mod Z.of_nat (length l) < Z.of_nat (length l))
    by (apply Z.mod_pos_bound; lia).
  destruct (0 <=? (c + 1) mod Z.of_nat (length l)) eqn:E; [|lia].
  destruct (nth_error l (Z.to_nat ((c + 1) mod Z.of_nat (length l)))) eqn:N.
  - eauto.
  - apply nth_error_None in N. lia.
Qed.

(** ** The result of [bind] *)

Lemma bind_Ok {A : Type} (r : result A) (k : A -> result A) (b : A) :
  bind r k = Ok b -> exists a, r = Ok a /\ k a = Ok b.
Proof. destruct r; simpl; intro H; [eauto | discriminate]. Qed.

(** ** What [animate] leaves alone *)

Section AnimateFrame.

Variables (now : Z) (counted shown : list Surface.t) (p : Player.t).

Lemma next_frame_jumping :
  Player.jumping (state_of (Player.next_frame now counted shown p))
  = Player.jumping p.
Proof.
  unfold Player.next_frame.
  destruct (_ =? 0); [reflexivity|]. cbn.
  destruct (py_index shown _); reflexivity.
Qed.

Lemma next_frame_bottom :
  Rect.bottom (Player.rect (state_of (Player.next_frame now counted shown p)))
  = Rect.bottom (Player.rect p).
Proof.
  unfold Player.next_frame.
  destruct (_ =? 0); [reflexivity|]. cbn.
  destruct (py_index shown _); cbn; [|reflexivity].
  unfold Rect.bottom. cbn. lia.
Qed.

Lemma next_frame_vel :
  Player.vel (state_of (Player.next_frame now counted shown p)) = Player.vel p.
Proof.
  unfold Player.next_frame.
  destruct (_ =? 0); [reflexivity|]. cbn.
  destruct (py_index shown _); reflexivity.
Qed.

Lemma next_frame_pos :
  Player.pos (state_of (Player.next_frame now counted shown p)) = Player.pos p.
Proof.
  unfold Player.next_frame.
  destruct (_ =? 0); [reflexivity|]. cbn.
  destruct (py_index shown _); reflexivity.
Qed.

Lemma next_frame_frames :
  Player.frames (state_of (Player.next_frame now counted shown p))
  = Player.frames p.
Proof.
  unfold Player.next_frame.
  destruct (_ =? 0); [reflexivity|]. cbn.
  destruct (py_index shown _); reflexivity.
Qed.

Lemma next_frame_exn e q :
  Player.next_frame now counted shown p = Raise e q ->
  e <> ConfigurationError.
Proof.
  unfold Player.next_frame.
  destruct (_ =? 0); [intro H; injection H as <- _; discriminate|].
  cbn. destruct (py_index shown _); [discriminate|].
  intro H; injection H as <- _; discriminate.
Qed.

Lemma next_frame_total :
  (0 < length counted)%nat -> length shown = length counted ->
  exists q, Player.next_frame now counted shown p = Ok q.
Proof.
  intros Hc Hs. unfold Player.next_frame.
  destruct (_ =? 0) eqn:E; [apply Z.eqb_eq in E; lia|]. cbn.
  rewrite <- Hs in *.
  destruct (py_index_mod shown (Player.current_frame p) Hc) as [img ->].
  eauto.
Qed.

End AnimateFrame.

(** Any observation of the player that [next_frame] and the two flag
    writes of [animate] leave alone is left alone by [animate]. *)
Section AnimatePreserves.

Context {X : Type} (f : Player.t -> X).
Hypothesis f_running : forall p v, f (Player.set_running p v) = f p.
Hypothesis f_mask : forall p v, f (Player.set_mask p v) = f p.
Hypothesis f_next_frame : forall now counted shown p,
  f (state_of (Player.next_frame now counted shown p)) = f p.

Lemma animate_run_preserves s now p :
  f (state_of (Player.animate_run s now p)) = f p.
Proof.
  unfold Player.animate_run.
  destruct (Player.running p); [|reflexivity].
  destruct (_ <? _); [apply f_next_frame | reflexivity].
Qed.

Lemma animate_idle_preserves s now p :
  f (state_of (Player.animate_idle s now p)) = f p.
Proof.
  unfold Player.animate_idle.
  destruct (_ && _); [|reflexivity].
  destruct (_ <? _); [apply f_next_frame | reflexivity].
Qed.

Lemma animate_preserves s now p :
  f (state_of (Player.animate s now p)) = f p.
Proof.
  unfold Player.animate.
  set (p1 := Player.set_running p _).
  assert (H1 := animate_run_preserves s now p1).
  destruct (Player.animate_run s now p1) as [q|e q]; cbn in *.
  - assert (H2 := animate_idle_preserves s now q).
    destruct (Player.animate_idle s now q) as [q'|e q']; cbn in *.
    + rewrite f_mask, H2, H1. apply f_running.
    + rewrite H2, H1. apply f_running.
  - rewrite H1. apply f_running.
Qed.

End AnimatePreserves.

Lemma animate_jumping s now p :
  Player.jumping (state_of (Player.animate s now p)) = Player.jumping p.
Proof.
  apply (animate_preserves Player.jumping); auto using next_frame_jumping.
Qed.

Lemma animate_bottom s now p :
  Rect.bottom (Player.rect (state_of (Player.animate s now p)))
  = Rect.bottom (Player.rect p).
Proof.
  apply (animate_preserves (fun q => Rect.bottom (Player.rect q)));
    auto using next_frame_bottom.
Qed.

Lemma animate_vel s now p :
  Player.vel (state_of (Player.animate s now p)) = Player.vel p.
Proof.
  apply (animate_preserves Player.vel); auto using next_frame_vel.
Qed.

Lemma animate_pos s now p :
  Player.pos (state_of (Player.animate s now p)) = Player.pos p.
Proof.
  apply (animate_preserves Player.pos); auto using next_frame_pos.
Qed.

Lemma animate_frames s now p :
  Player.frames (state_of (Player.animate s now p)) = Player.frames p.
Proof.
  apply (animate_preserves Player.frames); auto using next_frame_frames.
Qed.

(** On well-formed frame lists [animate] returns. *)
Lemma animate_total s now p :
  Player.frames_ok (Player.frames p) ->
  exists q, Player.animate s now p = Ok q.
Proof.
  intros (Hr & Hrl & Hs & Hsl). unfold Player.animate.
  set (p1 := Player.set_running p _).
  assert (Hf1 : Player.frames p1 = Player.frames p) by reflexivity.
  assert (R : exists q, Player.animate_run s now p1 = Ok q).
  { unfold Player.animate_run.
    destruct (Player.running p1); [|eauto].
    destruct (_ <? _); [|eauto].
    rewrite Hf1.
    destruct (Qlt_bool 0 _); apply next_frame_total; auto. }
  destruct R as [q Hq]. rewrite Hq. cbn.
  assert (Hf2 : Player.frames q = Player.frames p).
  { pose proof (animate_run_preserves Player.frames
                  next_frame_frames s now p1) as H.
    rewrite Hq in H. exact H. }
  assert (I : exists q', Player.animate_idle s now q = Ok q').
  { unfold Player.animate_idle.
    destruct (_ && _); [|eauto].
    destruct (_ <? _); [|eauto].
    rewrite Hf2.
    destruct (Qlt_bool 0 _); apply next_frame_total; auto. }
  destruct I as [q' Hq']. rewrite Hq'. cbn. eauto.
Qed.

(** [animate] raises nothing but the two built-in exceptions. *)
Lemma animate_exn s now p e q :
  Player.animate s now p = Raise e q -> e <> ConfigurationError.
Proof.
  unfold Player.animate.
  set (p1 := Player.set_running p _).
  destruct (Player.animate_run s now p1) as [q1|e1 q1] eqn:R; cbn.
  - destruct (Player.animate_idle s now q1) as [q2|e2 q2] eqn:I; cbn.
    + discriminate.
    + intro H; injection H as <- _.
      unfold Player.animate_idle in I.
      destruct (_ && _); [|discriminate].
      destruct (_ <? _); [|discriminate].
      eapply next_frame_exn; eauto.
  - intro H; injection H as <- _.
    unfold Player.animate_run in R.
    destruct (Player.running p1); [|discriminate].
    destruct (_ <? _); [|discriminate].
    eapply next_frame_exn; eauto.
Qed.

(** ** What the physics steps leave alone *)

Lemma physics_jumping s keys p :
  Player.jumping (Player.physics s keys p) = Player.jumping p.
Proof.
  unfold Player.physics, Player.sync_rect, Player.clamp_left,
    Player.integrate_position, Player.velocity_step, Player.deadzone,
    Player.integrate_velocity, Player.apply_friction, Player.apply_input,
    Player.apply_gravity.
  repeat (match goal with |- context [if ?c then _ else _] => destruct c end;
          cbn); reflexivity.
Qed.

Lemma physics_frames s keys p :
  Player.frames (Player.physics s keys p) = Player.frames p.
Proof.
  unfold Player.physics, Player.sync_rect, Player.clamp_left,
    Player.integrate_position, Player.velocity_step, Player.deadzone,
    Player.integrate_velocity, Player.apply_friction, Player.apply_input,
    Player.apply_gravity.
  repeat (match goal with |- context [if ?c then _ else _] => destruct c end;
          cbn); reflexivity.
Qed.

Lemma jump_restores_rect (r : Rect.t) :
  Rect.set_x (Rect.set_x r (Rect.x r + 2))
             (Rect.x (Rect.set_x r (Rect.x r + 2)) - 2)
  = r.
Proof. destruct r as [x y w h]. unfold Rect.set_x. cbn. f_equal. lia. Qed.

(** ** The input step of [update] *)

(** C10.  In the input step of [Player.update], which runs on the
    acceleration [(0, PLAYER_GRAV)]: with left held, [acc.x] is
    [-PLAYER_ACC]; with right held and left not, it is [+PLAYER_ACC]; with
    neither held it stays [0]; with both held the left branch is taken and
    right is ignored, so it is [-PLAYER_ACC]. *)
Theorem update_input_step (s : Settings) (p : Player.t) :
  let acc_x keys :=
    Vector2.x (Player.acc (Player.apply_input s keys (Player.apply_gravity s p)))
  in
  (forall right, acc_x {| K_LEFT := true; K_RIGHT := right |} == - PLAYER_ACC s)%Q /\
  (acc_x {| K_LEFT := false; K_RIGHT := true |} == PLAYER_ACC s)%Q /\
  (acc_x {| K_LEFT := false; K_RIGHT := false |} == 0)%Q /\
  (acc_x {| K_LEFT := true; K_RIGHT := true |} == - PLAYER_ACC s)%Q.
Proof.
  cbn. repeat split; try intros _; try reflexivity; ring.
Qed.

(** ** Jumping *)

(** C2.  [Player.jump] on a player that is already jumping changes nothing
    (in particular neither [jumping] nor [vel.y]).  On a player that is not
    jumping and whose rect, moved 2 pixels to the right, overlaps a member
    of the platform group or of the base group, it sets [vel.y] to
    [-PLAYER_JUMP_VEL] and [jumping] to true. *)
Theorem jump_gating (s : Settings) (platforms bases : list Rect.t)
    (p : Player.t) :
  let probe := Rect.set_x (Player.rect p) (Rect.x (Player.rect p) + 2) in
  (Player.jumping p = true ->
   Player.jump s platforms bases p = p /\
   Player.jumping (Player.jump s platforms bases p) = Player.jumping p /\
   Vector2.y (Player.vel (Player.jump s platforms bases p))
   = Vector2.y (Player.vel p)) /\
  (Player.jumping p = false ->
   (exists t, In t (platforms ++ bases) /\ Rect.colliderect probe t = true) ->
   (Vector2.y (Player.vel (Player.jump s platforms bases p))
    == - PLAYER_JUMP_VEL s)%Q /\
   Player.jumping (Player.jump s platforms bases p) = true).
Proof.
  cbn zeta. split.
  - intro Hj.
    assert (E : Player.jump s platforms bases p = p).
    { unfold Player.jump. cbn. rewrite Hj, andb_false_r.
      destruct p as [? ? ? ? ? ? ? r ? ? ? ?]. unfold Player.set_rect. cbn.
      f_equal. apply jump_restores_rect. }
    rewrite E. auto.
  - intros Hj (t & Hin & Hc).
    assert (Hh : truthy (py_or
                   (spritecollide
                      (Rect.set_x (Player.rect p) (Rect.x (Player.rect p) + 2))
                      platforms)
                   (spritecollide
                      (Rect.set_x (Player.rect p) (Rect.x (Player.rect p) + 2))
                      bases)) = true).
    { apply in_app_or in Hin. unfold spritecollide.
      destruct Hin as [Hin|Hin];
        assert (Hf := proj2 (filter_In _ _ _) (conj Hin Hc)).
      - destruct (filter _ platforms); [contradiction|reflexivity].
      - destruct (filter _ platforms); [|reflexivity]. cbn.
        destruct (filter _ bases); [contradiction|reflexivity]. }
    unfold Player.jump. cbn. cbn in Hh. rewrite Hh, Hj. cbn.
    split; [ring | reflexivity].
Qed.

Lemma jump_gating_witness :
  (Player.jump cfg some_platforms no_bases rising_player = rising_player /\
   Player.jumping (Player.jump cfg some_platforms no_bases rising_player)
   = Player.jumping rising_player /\
   Vector2.y (Player.vel (Player.jump cfg some_platforms no_bases rising_player))
   = Vector2.y (Player.vel rising_player)) /\
  ((Vector2.y (Player.vel (Player.jump cfg some_platforms no_bases
                             (new_player small_frames)))
    == - PLAYER_JUMP_VEL cfg)%Q /\
   Player.jumping (Player.jump cfg some_platforms no_bases
                     (new_player small_frames)) = true).
Proof.
  split.
  - apply (proj1 (jump_gating cfg some_platforms no_bases rising_player)).
    reflexivity.
  - apply (proj2 (jump_gating cfg some_platforms no_bases
                    (new_player small_frames))).
    + reflexivity.
    + exists (Rect.mk 0 560 190 47). split; [left; reflexivity | reflexivity].
Defined.

(** C5.  [Player.jump_cut] changes the player only when [jumping] is true
    and [vel.y < -JUMP_THRESHOLD]; it then sets [vel.y] to exactly
    [-JUMP_THRESHOLD] and nothing else.  In every other case it is a no-op.
    It never lowers [vel.y], and for a non-negative threshold it never
    increases the magnitude of an upward ([vel.y < 0]) velocity. *)
Theorem jump_cut_clamps (s : Settings) (p : Player.t) :
  let vy q := Vector2.y (Player.vel q) in
  (Player.jumping p = true -> (vy p < - JUMP_THRESHOLD s)%Q ->
   Player.jump_cut s p
   = Player.set_vel p (Vector2.set_y (Player.vel p) (JUMP_THRESHOLD s * -1)) /\
   (vy (Player.jump_cut s p) == - JUMP_THRESHOLD s)%Q) /\
  (~ (Player.jumping p = true /\ (vy p < - JUMP_THRESHOLD s)%Q) ->
   Player.jump_cut s p = p) /\
  (vy p <= vy (Player.jump_cut s p))%Q /\
  ((0 <= JUMP_THRESHOLD s)%Q -> (vy p < 0)%Q ->
   (Qabs (vy (Player.jump_cut s p)) <= Qabs (vy p))%Q).
Proof.
  cbn zeta. unfold Player.jump_cut.
  assert (Em : (JUMP_THRESHOLD s * -1 == - JUMP_THRESHOLD s)%Q) by ring.
  destruct (Player.jumping p) eqn:Hj;
    destruct (Qlt_bool (Vector2.y (Player.vel p)) (JUMP_THRESHOLD s * -1))
      eqn:Hc.
  - apply Qlt_bool_iff in Hc. rewrite Em in Hc. cbn.
    split; [|split; [|split]].
    + intros _ _. split; [reflexivity | exact Em].
    + intros H. exfalso. apply H. auto.
    + lra.
    + intros Ht Hv.
      rewrite (Qabs_neg (Vector2.y (Player.vel p))) by lra.
      rewrite (Qabs_neg (JUMP_THRESHOLD s * -1)) by lra. lra.
  - apply Qlt_bool_false_iff in Hc. rewrite Em in Hc.
    split; [|split; [|split]].
    + intros _ H. exfalso. lra.
    + reflexivity.
    + apply Qle_refl.
    + intros; apply Qle_refl.
  - split; [|split; [|split]]; try discriminate; try reflexivity;
      intros; apply Qle_refl.
  - split; [|split; [|split]]; try discriminate; try reflexivity;
      intros; apply Qle_refl.
Qed.

Lemma jump_cut_clamps_witness :
  (Player.jump_cut cfg rising_player
   = Player.set_vel rising_player
       (Vector2.set_y (Player.vel rising_player) (JUMP_THRESHOLD cfg * -1)) /\
   (Vector2.y (Player.vel (Player.jump_cut cfg rising_player))
    == - JUMP_THRESHOLD cfg)%Q) /\
  Player.jump_cut cfg (new_player small_frames) = new_player small_frames /\
  (Qabs (Vector2.y (Player.vel (Player.jump_cut cfg rising_player)))
   <= Qabs (Vector2.y (Player.vel rising_player)))%Q.
Proof.
  split; [|split].
  - apply (proj1 (jump_cut_clamps cfg rising_player)); reflexivity.
  - apply (proj1 (proj2 (jump_cut_clamps cfg (new_player small_frames)))).
    intros [H _]. discriminate H.
  - apply (proj2 (proj2 (proj2 (jump_cut_clamps cfg rising_player)))).
    + discriminate.
    + reflexivity.
Defined.

(** ** Animation *)

(** C8.  Whatever [Player.animate] does (the run block changes the frame,
    the idle block does, or no frame changes), [rect.bottom] after the call
    is [rect.bottom] before it: a replaced rect is given the old bottom
    edge. *)
Theorem animate_keeps_bottom (s : Settings) (now : Z) (p : Player.t) :
  Rect.bottom (Player.rect (state_of (Player.animate s now p)))
  = Rect.bottom (Player.rect p).
Proof. apply animate_bottom. Qed.

(** The idle block firing on the start player: the 20 x 40 image is
    replaced by the 22 x 42 one and the bottom edge stays at 570. *)
Example animate_idle_frame_change :
  exists q, Player.animate cfg 500 (new_player small_frames) = Ok q /\
    Player.current_frame q = 1 /\
    Player.rect (new_player small_frames) = Rect.mk 10 530 20 40 /\
    Player.rect q = Rect.mk 0 528 22 42.
Proof. eexists. repeat split. Qed.

(** ** The jumping flag *)

Lemma jump_keeps_jumping s platforms bases p :
  Player.jumping p = true ->
  Player.jumping (Player.jump s platforms bases p) = true.
Proof.
  intro H. unfold Player.jump. cbn. rewrite H, andb_false_r. cbn. exact H.
Qed.

Lemma jump_cut_jumping s p :
  Player.jumping (Player.jump_cut s p) = Player.jumping p.
Proof.
  unfold Player.jump_cut.
  destruct (Player.jumping p) eqn:E; [|exact E].
  destruct (Qlt_bool _ _); cbn; exact E.
Qed.

Lemma update_jumping s keys now p :
  Player.jumping (state_of (Player.update s keys now p)) = Player.jumping p.
Proof.
  unfold Player.update.
  pose proof (animate_jumping s now p) as H.
  destruct (Player.animate s now p) as [q|e q]; unfold bind, state_of in *.
  - rewrite physics_jumping. exact H.
  - exact H.
Qed.

Lemma step_keeps_jumping s c p :
  Player.jumping p = true ->
  Player.jumping (state_of (Player.step s c p)) = true.
Proof.
  intro H. destruct c as [keys now|now|platforms bases|]; cbn.
  - rewrite update_jumping. exact H.
  - rewrite animate_jumping. exact H.
  - apply jump_keeps_jumping. exact H.
  - rewrite jump_cut_jumping. exact H.
Qed.

(** C6.  Once [jumping] is true it stays true under every sequence of
    [update], [animate], [jump] and [jump_cut] calls, whether the sequence
    runs to its end or is cut short by an exception; and a single call that
    turns it from false to true is a [jump] that found an overlap. *)
Theorem jumping_never_cleared (s : Settings) :
  (forall (cs : list Player.call) (p : Player.t),
     Player.jumping p = true ->
     Player.jumping (state_of (Player.run s cs p)) = true) /\
  (forall (c : Player.call) (p : Player.t),
     Player.jumping p = false ->
     Player.jumping (state_of (Player.step s c p)) = true ->
     exists platforms bases,
       c = Player.Jump platforms bases /\
       spritecollide
         (Rect.set_x (Player.rect p) (Rect.x (Player.rect p) + 2))
         (platforms ++ bases) <> []).
Proof.
  split.
  - induction cs as [|c cs IH]; intros p H; cbn.
    + exact H.
    + pose proof (step_keeps_jumping s c p H) as Hs.
      destruct (Player.step s c p) as [q|e q]; cbn in *.
      * apply IH. exact Hs.
      * exact Hs.
  - intros c p Hf Ht.
    destruct c as [keys now|now|platforms bases|]; cbn in Ht.
    + rewrite update_jumping in Ht. congruence.
    + rewrite animate_jumping in Ht. congruence.
    + exists platforms, bases. split; [reflexivity|].
      unfold Player.jump in Ht. cbn in Ht.
      unfold spritecollide in *. rewrite filter_app.
      destruct (filter _ platforms) eqn:Ep; cbn in *.
      * destruct (filter _ bases) eqn:Eb; cbn in *; [congruence|discriminate].
      * discriminate.
    + rewrite jump_cut_jumping in Ht. congruence.
Qed.

Lemma jumping_never_cleared_witness :
  Player.jumping
    (state_of
       (Player.run cfg
          [Player.Update no_keys 100; Player.JumpCut;
           Player.Jump some_platforms no_bases; Player.Animate 400;
           Player.Update left_key 700]
          rising_player)) = true /\
  exists platforms bases,
    Player.Jump some_platforms no_bases = Player.Jump platforms bases /\
    spritecollide
      (Rect.set_x (Player.rect (new_player small_frames))
                  (Rect.x (Player.rect (new_player small_frames)) + 2))
      (platforms ++ bases) <> [].
Proof.
  split.
  - apply (proj1 (jumping_never_cleared cfg)). reflexivity.
  - apply (proj2 (jumping_never_cleared cfg)); reflexivity.
Defined.

(** ** Empty frame lists *)

(** C7, as the code has it.  When the frame change is reached with an empty
    list (the run block with [run_frames_l] empty, the idle block with
    [standing_frames_r] empty, [Slime.animate] with [walk_images] empty),
    the modulo raises Python's [ZeroDivisionError], after [last_update] was
    already overwritten; neither [animate] ever raises a
    [ConfigurationError]. *)
Theorem animate_empty_frames_raise :
  (forall s now p,
     ~ (Vector2.x (Player.vel p) == 0)%Q ->
     PLAYER_RUN_FREQ s < now - Player.last_update p ->
     Player.run_frames_l (Player.frames p) = [] ->
     Player.animate s now p
     = Raise ZeroDivisionError
         (Player.set_last_update (Player.set_running p true) now)) /\
  (forall s now p,
     (Vector2.x (Player.vel p) == 0)%Q ->
     Player.jumping p = false ->
     PLAYER_IDLE_FREQ s < now - Player.last_update p ->
     Player.standing_frames_r (Player.frames p) = [] ->
     Player.animate s now p
     = Raise ZeroDivisionError
         (Player.set_last_update (Player.set_running p false) now)) /\
  (forall now e,
     180 < now - Slime.last_update e ->
     Slime.walk_images e = [] ->
     Slime.animate now e
     = Raise ZeroDivisionError (Slime.set_last_update e now)) /\
  (forall s now p x q,
     Player.animate s now p = Raise x q -> x <> ConfigurationError) /\
  (forall now e x q,
     Slime.animate now e = Raise x q -> x <> ConfigurationError).
Proof.
  repeat split.
  - intros s now p Hv Ht He. unfold Player.animate, Player.animate_run.
    destruct (Qeq_bool (Vector2.x (Player.vel p)) 0) eqn:E.
    { apply Qeq_bool_iff in E. contradiction. }
    cbn. apply Z.ltb_lt in Ht. rewrite Ht.
    unfold Player.next_frame. cbn. rewrite He. reflexivity.
  - intros s now p Hv Hj Ht He.
    unfold Player.animate, Player.animate_run, Player.animate_idle.
    apply Qeq_bool_iff in Hv. rewrite Hv. cbn. rewrite Hj. cbn.
    apply Z.ltb_lt in Ht. rewrite Ht.
    unfold Player.next_frame. cbn. rewrite He. reflexivity.
  - intros now e Ht He. unfold Slime.animate.
    apply Z.ltb_lt in Ht. rewrite Ht.
    unfold Slime.next_frame. cbn. rewrite He. reflexivity.
  - intros s now p x q. apply animate_exn.
  - intros now e x q. unfold Slime.animate, Slime.next_frame.
    destruct (180 <? _); [|discriminate].
    destruct (_ =? 0); [cbn; intro H; injection H as <- _; discriminate|].
    destruct (py_index _ _); cbn; [discriminate|].
    intro H; injection H as <- _; discriminate.
Qed.

(** A player with an empty run directory that has started to move right,
    an idle player whose standing list was emptied, and a slime without walk
    images. *)
Lemma animate_empty_frames_raise_witness :
  let moving :=
    Player.set_vel (new_player no_run_frames) (Vector2.vec 0.5 0.8) in
  let idle :=
    Player.mk false false true 0 0
      (Player.load_images [] [] [] [] [])
      (Surface.mk 20 40 0 false) (Rect.mk 10 530 20 40) None
      (Vector2.vec 40 550) (Vector2.vec 0 0) (Vector2.vec 0 0) in
  let slime :=
    Slime.mk 0 0 [] (Slime.load_die_image 7) (Surface.mk 75 42 7 false)
             (Rect.mk 800 463 75 42) None 2 in
  Player.animate cfg 500 moving
  = Raise ZeroDivisionError
      (Player.set_last_update (Player.set_running moving true) 500) /\
  Player.animate cfg 500 idle
  = Raise ZeroDivisionError
      (Player.set_last_update (Player.set_running idle false) 500) /\
  Slime.animate 500 slime
  = Raise ZeroDivisionError (Slime.set_last_update slime 500) /\
  ZeroDivisionError <> ConfigurationError.
Proof.
  cbv zeta.
  destruct animate_empty_frames_raise as (Hrun & Hidle & Hslime & Hexn & _).
  split; [|split; [|split]].
  - apply Hrun; [discriminate | reflexivity | reflexivity].
  - apply Hidle; reflexivity.
  - apply Hslime; reflexivity.
  - apply (Hexn cfg 500
             (Player.set_vel (new_player no_run_frames) (Vector2.vec 0.5 0.8))
             ZeroDivisionError
             (Player.set_last_update
                (Player.set_running
                   (Player.set_vel (new_player no_run_frames)
                      (Vector2.vec 0.5 0.8)) true) 500)).
    apply Hrun; [discriminate | reflexivity | reflexivity].
Defined.

(** C7 as stated fails: a player built on an empty run directory starts to
    move right; the next [animate] whose run interval has elapsed raises
    [ZeroDivisionError], not [ConfigurationError]. *)
Lemma animate_empty_frames_counterexample :
  Player.update cfg right_key 0 (new_player no_run_frames) = Ok moving_player /\
  Player.run_frames_l (Player.frames moving_player) = [] /\
  Player.animate cfg 500 moving_player
  = Raise ZeroDivisionError
      (Player.set_last_update (Player.set_running moving_player true) 500) /\
  ~ (exists q, Player.animate cfg 500 moving_player = Raise ConfigurationError q).
Proof.
  split; [vm_compute; reflexivity|].
  split; [vm_compute; reflexivity|].
  split; [vm_compute; reflexivity|].
  intros [q H]. apply animate_exn in H. congruence.
Qed.

(** The walk list [Slime.load_images] builds always has two frames. *)
Lemma slime_walk_images_length (sheet : nat) :
  length (Slime.load_walk_images sheet) = 2%nat.
Proof. reflexivity. Qed.

(** ** SpriteSheet.get_image *)

Lemma trunc_bounds (q : Q) :
  (0 <= q)%Q -> (inject_Z (trunc q) <= q < inject_Z (trunc q) + 1)%Q.
Proof.
  intro H. rewrite (trunc_floor q H). split.
  - apply Qfloor_le.
  - pose proof (Qlt_floor q) as L. rewrite inject_Z_plus in L. exact L.
Qed.

Lemma py_round_nonneg (q : Q) : (0 <= q)%Q -> 0 <= py_round q.
Proof.
  intro H. unfold py_round.
  assert (F : 0 <= Qfloor q).
  { change 0 with (Qfloor 0). apply Qfloor_resp_le. exact H. }
  destruct (Qlt_bool _ 1); [exact F|].
  destruct (Qlt_bool 1 _); [lia|].
  destruct (Z.even _); lia.
Qed.

Lemma Qpower_2_pos (k : Z) : (0 < 2 ^ k)%Q.
Proof. apply Qpower_0_lt. reflexivity. Qed.

(** Rounding to binary64 keeps a non-negative number non-negative. *)
Lemma fl_nonneg (q : Q) : (0 <= q)%Q -> (0 <= fl q)%Q.
Proof.
  intro H. unfold fl.
  destruct (Qeq_bool q 0); [apply Qle_refl|].
  apply Qle_bool_iff in H. rewrite H. apply Qle_bool_iff in H.
  apply Qmult_le_0_compat.
  - change 0%Q with (inject_Z 0). rewrite <- Zle_Qle.
    apply py_round_nonneg. apply Qmult_le_0_compat.
    + apply Qabs_nonneg.
    + apply Qlt_le_weak, Qpower_2_pos.
  - apply Qlt_le_weak, Qpower_2_pos.
Qed.

Lemma to_double_Some (q r : Q) : to_double q = Some r -> r = fl q.
Proof.
  unfold to_double. destruct (Qlt_bool _ _); [|discriminate].
  intro H; injection H as <-. reflexivity.
Qed.

Lemma int_times_float_Some (width : Z) (scale pw : Q) :
  SpriteSheet.int_times_float width scale = Some pw ->
  pw = fl (inject_Z width * fl scale).
Proof.
  unfold SpriteSheet.int_times_float.
  destruct (to_double scale) as [f|] eqn:E; [|discriminate].
  apply to_double_Some in E. subst f. apply to_double_Some.
Qed.

Lemma int_times_float_nonneg (width : Z) (scale pw : Q) :
  SpriteSheet.int_times_float width scale = Some pw ->
  0 <= width -> (0 <= scale)%Q -> (0 <= pw)%Q.
Proof.
  intros H Hw Hs. apply int_times_float_Some in H. subst pw.
  apply fl_nonneg. apply Qmult_le_0_compat.
  - change 0%Q with (inject_Z 0). rewrite <- Zle_Qle. exact Hw.
  - apply fl_nonneg, Hs.
Qed.

(** The constant calls of this module return. *)
Lemma get_image_constants (sheet : nat) :
  SpriteSheet.get_image sheet 52 125 50 28 1.5
  = Some (Surface.mk 75 42 sheet false) /\
  SpriteSheet.get_image sheet 0 125 51 26 1.5
  = Some (Surface.mk 76 39 sheet false) /\
  SpriteSheet.get_image sheet 0 112 59 12 SpriteSheet.default_scale
  = Some (Surface.mk 29 6 sheet false) /\
  SpriteSheet.get_image sheet 0 96 380 94 SpriteSheet.default_scale
  = Some (Surface.mk 190 47 sheet false) /\
  SpriteSheet.get_image sheet 0 192 380 94 SpriteSheet.default_scale
  = Some (Surface.mk 190 47 sheet false) /\
  SpriteSheet.get_image sheet 382 408 200 100 SpriteSheet.default_scale
  = Some (Surface.mk 100 50 sheet false) /\
  SpriteSheet.get_image sheet 232 1288 200 100 SpriteSheet.default_scale
  = Some (Surface.mk 100 50 sheet false).
Proof. repeat split; vm_compute; reflexivity. Qed.

(** C9, as the code has it.  Whenever [get_image] returns, the image has
    the size [(int(width * scale), int(height * scale))], the products
    being Python's float products: each side is the float product truncated
    toward zero, which for a non-negative scale is the largest integer not
    above the float product, and is [floor (width * scale)] when the float
    product is exact.  The crop size is then not negative: on a negative
    [width] or [height] the call raises. *)
Theorem get_image_size (sheet : nat) (x y width height : Z) (scale : Q) :
  (forall img,
     SpriteSheet.get_image sheet x y width height scale = Some img ->
     exists pw ph,
       SpriteSheet.int_times_float width scale = Some pw /\
       SpriteSheet.int_times_float height scale = Some ph /\
       pw = fl (inject_Z width * fl scale) /\
       ph = fl (inject_Z height * fl scale) /\
       0 <= width /\ 0 <= height /\
       Surface.width img = trunc pw /\
       Surface.height img = trunc ph /\
       0 <= Surface.width img /\ 0 <= Surface.height img /\
       ((0 <= scale)%Q ->
        (inject_Z (Surface.width img) <= pw
         < inject_Z (Surface.width img) + 1)%Q /\
        (inject_Z (Surface.height img) <= ph
         < inject_Z (Surface.height img) + 1)%Q) /\
       ((0 <= scale)%Q -> (pw == inject_Z width * scale)%Q ->
        Surface.width img = Qfloor (inject_Z width * scale)) /\
       ((0 <= scale)%Q -> (ph == inject_Z height * scale)%Q ->
        Surface.height img = Qfloor (inject_Z height * scale))) /\
  (width < 0 \/ height < 0 ->
   SpriteSheet.get_image sheet x y width height scale = None).
Proof.
  split.
  - intro img. unfold SpriteSheet.get_image.
    destruct (0 <=? width) eqn:Hw; [|discriminate].
    destruct (0 <=? height) eqn:Hh; [|discriminate].
    cbn [andb].
    destruct (c_int width && c_int height && c_int x && c_int y);
      [|discriminate].
    destruct (SpriteSheet.int_times_float width scale) as [pw|] eqn:Ew;
      [|discriminate].
    destruct (SpriteSheet.int_times_float height scale) as [ph|] eqn:Eh;
      [|discriminate].
    cbv zeta.
    destruct (0 <=? trunc pw) eqn:Sw; [|discriminate].
    destruct (0 <=? trunc ph) eqn:Sh; [|discriminate].
    cbn [andb].
    destruct (c_int (trunc pw) && c_int (trunc ph)); [|discriminate].
    intro H; injection H as <-.
    apply Z.leb_le in Hw, Hh, Sw, Sh.
    exists pw, ph. cbn [Surface.scale Surface.width Surface.height].
    pose proof (int_times_float_Some _ _ _ Ew) as Pw.
    pose proof (int_times_float_Some _ _ _ Eh) as Ph.
    do 10 (split; [assumption || reflexivity|]).
    split; [|split].
    + intro Hs. split; apply trunc_bounds.
      * apply (int_times_float_nonneg _ _ _ Ew Hw Hs).
      * apply (int_times_float_nonneg _ _ _ Eh Hh Hs).
    + intros Hs E.
      rewrite (trunc_floor pw (int_times_float_nonneg _ _ _ Ew Hw Hs)).
      apply Qfloor_comp, E.
    + intros Hs E.
      rewrite (trunc_floor ph (int_times_float_nonneg _ _ _ Eh Hh Hs)).
      apply Qfloor_comp, E.
  - intros [H | H]; unfold SpriteSheet.get_image.
    + apply Z.leb_gt in H. rewrite H. reflexivity.
    + apply Z.leb_gt in H. rewrite H.
      destruct (0 <=? width); reflexivity.
Qed.

Lemma get_image_size_witness :
  (exists pw ph,
     SpriteSheet.int_times_float 59 0.5 = Some pw /\
     SpriteSheet.int_times_float 12 0.5 = Some ph /\
     29 = trunc pw /\ 6 = trunc ph /\
     (inject_Z 29 <= pw < inject_Z 29 + 1)%Q /\
     29 = Qfloor (inject_Z 59 * 0.5)) /\
  SpriteSheet.get_image 7 0 0 (-2) 3 0.5 = None.
Proof.
  split.
  - destruct (proj1 (get_image_size 7 0 112 59 12 0.5)
                (Surface.mk 29 6 7 false))
      as (pw & ph & Ew & Eh & Pw & _ & _ & _ & Hw & Hh & _ & _ & Hb & Hf & _).
    + vm_compute. reflexivity.
    + exists pw, ph. cbn in Hw, Hh.
      split; [exact Ew|]. split; [exact Eh|].
      split; [exact Hw|]. split; [exact Hh|].
      split; [apply (Hb ltac:(discriminate))|].
      apply Hf; [discriminate|]. rewrite Pw. vm_compute. reflexivity.
  - apply (proj2 (get_image_size 7 0 0 (-2) 3 0.5)). left. reflexivity.
Defined.

(** C9 as stated fails: a 5 x 5 crop scaled by 0.75 comes out 3 x 3 where
    rounding 3.75 gives 4, and the slime's own die image, 59 wide at the
    default scale, comes out 29 wide where rounding 29.5 gives 30. *)
Lemma get_image_size_counterexample :
  (SpriteSheet.get_image 0 0 0 5 5 0.75 = Some (Surface.mk 3 3 0 false) /\
   py_round (inject_Z 5 * 0.75) = 4) /\
  (SpriteSheet.get_image 7 0 112 59 12 SpriteSheet.default_scale
   = Some (Surface.mk 29 6 7 false) /\
   Surface.width (Slime.load_die_image 7) = 29 /\
   py_round (inject_Z 59 * SpriteSheet.default_scale) = 30).
Proof. repeat split; vm_compute; reflexivity. Qed.

(** A product that binary64 rounds: [100 * 0.57] is 56.99999999999999 as a
    float, so the side is 56 although [100 * 57 / 100] is 57; and
    [10 * 0.7] is 7.0 as a float although the float 0.7 is below 7/10. *)
Example get_image_rounds_the_product :
  SpriteSheet.get_image 0 0 0 100 10 (57 # 100)
  = Some (Surface.mk 56 5 0 false) /\
  SpriteSheet.get_image 0 0 0 10 10 (7 # 10)
  = Some (Surface.mk 7 7 0 false) /\
  (fl (7 # 10) < 7 # 10)%Q.
Proof. repeat split; vm_compute; reflexivity. Qed.

(** ** The physics of [update] *)

Ltac unfold_physics :=
  unfold Player.physics, Player.sync_rect, Player.clamp_left,
    Player.integrate_position, Player.velocity_step, Player.deadzone,
    Player.integrate_velocity, Player.apply_friction, Player.apply_input,
    Player.apply_gravity.

Ltac split_ifs :=
  repeat (match goal with
          | |- context [if ?c then _ else _] => destruct c eqn:?
          end; cbn).

Lemma physics_vel_y s keys p :
  Vector2.y (Player.vel (Player.physics s keys p))
  = (Vector2.y (Player.vel p) + PLAYER_GRAV s)%Q.
Proof. unfold_physics. split_ifs; reflexivity. Qed.

Lemma physics_pos_y s keys p :
  Vector2.y (Player.pos (Player.physics s keys p))
  = (Vector2.y (Player.pos p)
     + (Vector2.y (Player.vel p) + PLAYER_GRAV s + 0.5 * PLAYER_GRAV s))%Q.
Proof. unfold_physics. split_ifs; reflexivity. Qed.

(** The rect the clamp looks at is the one [animate] left. *)
Lemma physics_clamp s keys p :
  Rect.left (Player.rect p) < 0 ->
  Vector2.x (Player.pos (Player.physics s keys p))
  = inject_Z (Rect.left (Player.rect p) + 50) /\
  Rect.left (Player.rect (Player.physics s keys p))
  = Rect.left (Player.rect p) + 50 - Rect.w (Player.rect p) / 2.
Proof.
  intro H. apply Z.ltb_lt in H.
  assert (R : Player.rect (Player.velocity_step s keys p) = Player.rect p).
  { unfold Player.velocity_step, Player.deadzone,
      Player.integrate_velocity, Player.apply_friction, Player.apply_input,
      Player.apply_gravity.
    split_ifs; reflexivity. }
  unfold Player.physics, Player.sync_rect, Player.clamp_left,
    Player.integrate_position.
  cbn. rewrite R, H. cbn. rewrite R. unfold Rect.left. cbn.
  rewrite round_half_away_inject_Z. split; reflexivity.
Qed.

(** C1, as the code has it.  In a call of [Player.update] whose [animate]
    returns: if the left edge of the rect [animate] left is negative at the
    clamp, [pos.x] is set to that left edge plus 50, and once the rect is
    put back on [pos] its left edge is the old left edge plus 50 minus half
    the width, which is below 50 for every width that is not negative. *)
Theorem update_left_clamp (s : Settings) (keys : Keys) (now : Z)
    (p q : Player.t) :
  Player.animate s now p = Ok q ->
  Rect.left (Player.rect q) < 0 ->
  exists p',
    Player.update s keys now p = Ok p' /\
    Vector2.x (Player.pos p') = inject_Z (Rect.left (Player.rect q) + 50) /\
    Rect.left (Player.rect p')
    = Rect.left (Player.rect q) + 50 - Rect.w (Player.rect q) / 2 /\
    (0 <= Rect.w (Player.rect q) -> Rect.left (Player.rect p') < 50).
Proof.
  intros Ha Hl. exists (Player.physics s keys q).
  unfold Player.update. rewrite Ha. cbn [bind].
  destruct (physics_clamp s keys q Hl) as [Hx Hr].
  repeat split; auto.
  intro Hw. rewrite Hr.
  assert (0 <= Rect.w (Player.rect q) / 2) by (apply Z.div_pos; lia).
  lia.
Qed.

Lemma update_left_clamp_witness :
  exists p',
    Player.update cfg left_key 0 wide_player = Ok p' /\
    Vector2.x (Player.pos p') = inject_Z (-40 + 50) /\
    Rect.left (Player.rect p') = -40 + 50 - 120 / 2 /\
    (0 <= 120 -> Rect.left (Player.rect p') < 50).
Proof.
  apply (update_left_clamp cfg left_key 0 wide_player
           (Player.set_mask wide_player (Some (Player.image wide_player)))).
  - vm_compute. reflexivity.
  - vm_compute. reflexivity.
Defined.

(** C1 as stated fails.  A 20 pixel wide player standing with its left
    edge at 0 and the left key held: after one tick the left edge is -1;
    on the next tick the clamp sees -1, sets [pos.x] to 49, and the left
    edge ends at 39, not 50.  And the start player on 120 pixel wide frames
    has its left edge at -40; after its first tick the clamp has moved it
    to -50. *)
Lemma update_left_clamp_counterexample :
  (Rect.left (Player.rect edge_player) = 0 /\
   Player.update cfg left_key 0 edge_player = Ok edge_tick1 /\
   Rect.left (Player.rect edge_tick1) = -1 /\
   Rect.left (Player.rect (state_of (Player.animate cfg 0 edge_tick1))) = -1 /\
   Player.update cfg left_key 0 edge_tick1 = Ok edge_tick2 /\
   Vector2.x (Player.pos edge_tick2) = 49%Q /\
   Rect.left (Player.rect edge_tick2) = 39) /\
  (Player.init cfg wide_frames = Some wide_player /\
   Rect.left (Player.rect wide_player) = -40 /\
   Player.update cfg left_key 0 wide_player = Ok wide_tick1 /\
   Vector2.x (Player.pos wide_tick1) = 10%Q /\
   Rect.left (Player.rect wide_tick1) = -50).
Proof.
  repeat split; vm_compute; reflexivity.
Qed.

(** C3, as the code has it.  From [pos = (40, H - 50)] and [vel = (0, 0)],
    with gravity 0.8 and no key held, one [Player.update] returns (the
    standing frames being there) with [vel.y = 0.8] and
    [pos.y = H - 50 + 0.8 + 0.4], which is [H - 48.8]. *)
Theorem update_first_tick (s : Settings) (now : Z) (p : Player.t) (H : Q) :
  (PLAYER_GRAV s == 0.8)%Q ->
  (Vector2.x (Player.pos p) == 40)%Q ->
  (Vector2.y (Player.pos p) == H - 50)%Q ->
  (Vector2.x (Player.vel p) == 0)%Q ->
  (Vector2.y (Player.vel p) == 0)%Q ->
  (0 < length (Player.standing_frames_r (Player.frames p)))%nat ->
  exists q,
    Player.update s no_keys now p = Ok q /\
    (Vector2.y (Player.vel q) == 0.8)%Q /\
    (Vector2.y (Player.pos q) == H - 50 + 0.8 + 0.4)%Q /\
    (Vector2.y (Player.pos q) == H - 48.8)%Q.
Proof.
  intros Hg Hpx Hpy Hvx Hvy Hf.
  assert (A : exists q1, Player.animate s now p = Ok q1).
  { unfold Player.animate, Player.animate_run, Player.animate_idle.
    apply Qeq_bool_iff in Hvx. rewrite Hvx. cbn.
    destruct (negb (Player.jumping p)); cbn; [|eauto].
    destruct (_ <? _); cbn; [|eauto].
    assert (Hp : Qlt_bool 0 (Vector2.x (Player.pos p)) = true)
      by (apply Qlt_bool_iff; rewrite Hpx; reflexivity).
    rewrite Hp.
    destruct (next_frame_total now
                (Player.standing_frames_r (Player.frames p))
                (Player.standing_frames_r (Player.frames p))
                (Player.set_running p false) Hf eq_refl) as [q1 Hq1].
    cbn in Hq1. rewrite Hq1. cbn. eauto. }
  destruct A as [q1 Hq1].
  pose proof (animate_vel s now p) as Hv.
  pose proof (animate_pos s now p) as Hp.
  rewrite Hq1 in Hv, Hp. cbn in Hv, Hp.
  exists (Player.physics s no_keys q1).
  unfold Player.update. rewrite Hq1. cbn [bind].
  rewrite physics_vel_y, physics_pos_y, Hv, Hp.
  split; [reflexivity|].
  rewrite Hg, Hvy, Hpy. repeat split; ring.
Qed.

Lemma update_first_tick_witness :
  exists q,
    Player.update cfg no_keys 0 (new_player small_frames) = Ok q /\
    (Vector2.y (Player.vel q) == 0.8)%Q /\
    (Vector2.y (Player.pos q) == 600 - 50 + 0.8 + 0.4)%Q /\
    (Vector2.y (Player.pos q) == 600 - 48.8)%Q.
Proof.
  apply (update_first_tick cfg 0 (new_player small_frames) 600).
  - reflexivity.
  - reflexivity.
  - reflexivity.
  - reflexivity.
  - reflexivity.
  - cbn. lia.
Defined.

(** C3 as stated fails: on a 600 pixel high screen the first tick of the
    start player ends with [vel.y = 0.8] and [pos.y = 551.2], which is
    [600 - 48.8] and not [600 - 49.2 = 550.8]. *)
Lemma update_first_tick_counterexample :
  Player.pos (new_player small_frames)
  = Vector2.vec 40 (inject_Z (HEIGHT cfg - 50)) /\
  Player.vel (new_player small_frames) = Vector2.vec 0 0 /\
  Player.update cfg no_keys 0 (new_player small_frames) = Ok first_tick /\
  (Vector2.y (Player.vel first_tick) == 0.8)%Q /\
  (Vector2.y (Player.pos first_tick) == 551.2)%Q /\
  ~ (Vector2.y (Player.pos first_tick) == inject_Z (HEIGHT cfg) - 49.2)%Q.
Proof.
  repeat split; try (vm_compute; reflexivity).
  vm_compute. discriminate.
Qed.

(** ** Friction *)

Lemma velocity_step_decay s p :
  Vector2.x (Player.vel (Player.velocity_step s no_keys p))
  = decay (PLAYER_FRICTION s) (Vector2.x (Player.vel p)).
Proof.
  unfold Player.velocity_step, Player.deadzone, decay. cbn.
  destruct (Qlt_bool _ _); reflexivity.
Qed.

Section Decay.
Local Open Scope Q_scope.
Variable f : Q.
Hypothesis Hf : 0 < f < 2.

Let r : Q := Qabs (1 - f).

Lemma decay_rate : 0 <= r < 1.
Proof.
  unfold r. split; [apply Qabs_nonneg|].
  apply Qabs_Qlt_condition. lra.
Qed.

Lemma decay_abs v : Qabs (decay f v) <= Qabs v * r.
Proof.
  unfold decay. cbv zeta.
  assert (E : v + (0 + v * f * -1) == v * (1 - f)) by ring.
  destruct (Qlt_bool _ _).
  - change (Qabs 0) with 0. apply Qmult_le_0_compat; [apply Qabs_nonneg | apply decay_rate].
  - rewrite E, Qabs_Qmult. apply Qle_refl.
Qed.

Lemma decay_zero_or_big v : decay f v = 0 \/ 0.1 <= Qabs (decay f v).
Proof.
  unfold decay. cbv zeta.
  destruct (Qlt_bool _ _) eqn:E; [left; reflexivity|].
  right. apply Qlt_bool_false_iff in E. exact E.
Qed.

Lemma iter_bound (n : nat) (v : Q) :
  Qabs (Nat.iter n (decay f) v) * (1 + inject_Z (Z.of_nat n) * (1 - r)) <= Qabs v.
Proof.
  pose proof decay_rate as Hr.
  induction n as [|n IH].
  - change (Nat.iter 0 (decay f) v) with v.
    change (inject_Z (Z.of_nat 0)) with 0.
    set (V := Qabs v). lra.
  - rewrite Nat2Z.inj_succ. unfold Z.succ. rewrite inject_Z_plus.
    change (Nat.iter (S n) (decay f) v) with (decay f (Nat.iter n (decay f) v)).
    pose proof (decay_abs (Nat.iter n (decay f) v)) as Hd.
    pose proof (Qabs_nonneg (decay f (Nat.iter n (decay f) v))) as Hb.
    pose proof (Qabs_nonneg (Nat.iter n (decay f) v)) as Ha.
    assert (Hn : 0 <= inject_Z (Z.of_nat n)).
    { change 0 with (inject_Z 0). rewrite <- Zle_Qle. lia. }
    change (inject_Z 1) with 1.
    set (a := Qabs (Nat.iter n (decay f) v)) in *.
    set (b := Qabs (decay f (Nat.iter n (decay f) v))) in *.
    set (m := inject_Z (Z.of_nat n)) in *.
    set (V := Qabs v) in *.
    set (k := 1 - r) in *.
    assert (Hk : 0 <= k <= 1) by (unfold k; lra).
    assert (P1 : 0 <= (a * r - b) * (1 + (m + 1) * k)).
    { apply Qmult_le_0_compat; [lra|].
      assert (0 <= (m + 1) * k) by (apply Qmult_le_0_compat; lra). lra. }
    assert (P2 : 0 <= r * (V - a * (1 + m * k)))
      by (apply Qmult_le_0_compat; lra).
    assert (P3 : 0 <= a * (m * k)).
    { apply Qmult_le_0_compat; [lra|]. apply Qmult_le_0_compat; lra. }
    assert (P4 : 0 <= k * (V - a)) by (apply Qmult_le_0_compat; lra).
    assert (P5 : 0 <= a * k * (1 - r)).
    { apply Qmult_le_0_compat; [|lra]. apply Qmult_le_0_compat; lra. }
    unfold k in *. nra.
Qed.

Lemma iter_stops (n : nat) (v : Q) :
  (friction_ticks f v <= n)%nat -> Nat.iter n (decay f) v = 0.
Proof.
  pose proof decay_rate as Hr. intro Hn.
  destruct n as [|n]; [unfold friction_ticks in Hn; lia|].
  change (Nat.iter (S n) (decay f) v) with (decay f (Nat.iter n (decay f) v)).
  destruct (decay_zero_or_big (Nat.iter n (decay f) v)) as [E|B]; [exact E|].
  exfalso.
  pose proof (iter_bound (S n) v) as Hb.
  change (Nat.iter (S n) (decay f) v)
    with (decay f (Nat.iter n (decay f) v)) in Hb.
  rewrite Nat2Z.inj_succ in Hb. unfold Z.succ in Hb.
  rewrite inject_Z_plus in Hb. change (inject_Z 1) with 1 in Hb.
  unfold friction_ticks in Hn. fold r in Hn.
  set (X := 10 * Qabs v / (1 - r)) in *.
  assert (Hc : X <= inject_Z (Z.of_nat n)).
  { apply Qle_trans with (inject_Z (Qceiling X)); [apply Qle_ceiling|].
    rewrite <- Zle_Qle. lia. }
  assert (HX : X * (1 - r) == 10 * Qabs v).
  { unfold X. field. lra. }
  assert (Hm : 0 <= inject_Z (Z.of_nat n)).
  { change 0 with (inject_Z 0). rewrite <- Zle_Qle. lia. }
  set (m := inject_Z (Z.of_nat n)) in *.
  set (b := Qabs (decay f (Nat.iter n (decay f) v))) in *.
  set (V := Qabs v) in *.
  assert (P1 : 0 <= (m - X) * (1 - r)) by (apply Qmult_le_0_compat; lra).
  assert (P2 : 0 <= (b - 0.1) * (1 + (m + 1) * (1 - r))).
  { apply Qmult_le_0_compat; [lra|].
    assert (0 <= (m + 1) * (1 - r)) by (apply Qmult_le_0_compat; lra). lra. }
  nra.
Qed.

End Decay.

Lemma physics_vel s keys p :
  Player.vel (Player.physics s keys p)
  = Player.vel (Player.velocity_step s keys p).
Proof.
  unfold Player.physics, Player.sync_rect, Player.clamp_left,
    Player.integrate_position.
  cbn. destruct (_ <? 0); reflexivity.
Qed.

Lemma iter_velocity_step s (n : nat) p :
  Vector2.x (Player.vel (Nat.iter n (Player.velocity_step s no_keys) p))
  = Nat.iter n (decay (PLAYER_FRICTION s)) (Vector2.x (Player.vel p)).
Proof.
  induction n as [|n IH]; [reflexivity|].
  change (Nat.iter (S n) (Player.velocity_step s no_keys) p)
    with (Player.velocity_step s no_keys
            (Nat.iter n (Player.velocity_step s no_keys) p)).
  rewrite velocity_step_decay, IH. reflexivity.
Qed.

(** Ticks with no key held, on well-formed frames: every [update] returns
    and [vel.x] follows [decay]. *)
Lemma run_no_keys s (nows : list Z) :
  forall p, Player.frames_ok (Player.frames p) ->
  exists q,
    Player.run s (map (Player.Update no_keys) nows) p = Ok q /\
    Vector2.x (Player.vel q)
    = Nat.iter (length nows) (decay (PLAYER_FRICTION s))
        (Vector2.x (Player.vel p)).
Proof.
  induction nows as [|now nows IH]; intros p Hok.
  - exists p. split; reflexivity.
  - destruct (animate_total s now p Hok) as [q1 Hq1].
    pose proof (animate_vel s now p) as Hv.
    pose proof (animate_frames s now p) as Hfr.
    rewrite Hq1 in Hv, Hfr. unfold state_of in Hv, Hfr.
    assert (Hok' : Player.frames_ok
                     (Player.frames (Player.physics s no_keys q1)))
      by (rewrite physics_frames, Hfr; exact Hok).
    destruct (IH _ Hok') as (q & Hrun & Hx).
    exists q. split.
    + change (Player.run s (map (Player.Update no_keys) (now :: nows)) p)
        with (bind (Player.update s no_keys now p)
                (Player.run s (map (Player.Update no_keys) nows))).
      unfold Player.update. rewrite Hq1. unfold bind at 1 2. exact Hrun.
    + rewrite Hx, physics_vel, velocity_step_decay, Hv.
      change (length (now :: nows)) with (S (length nows)).
      rewrite Nat.iter_succ_r. reflexivity.
Qed.

(** C4.  With a friction coefficient strictly between 0 and 2 and no key
    held, [vel.x] is exactly 0 after [friction_ticks] ticks and stays 0 on
    every later tick, from every start velocity: both for the velocity step
    iterated on its own and for whole [update] calls on a player whose frame
    lists are well formed (every such [update] returns). *)
Theorem friction_stops (s : Settings) (p : Player.t) :
  (0 < PLAYER_FRICTION s < 2)%Q ->
  let bound :=
    friction_ticks (PLAYER_FRICTION s) (Vector2.x (Player.vel p)) in
  (forall n : nat, (bound <= n)%nat ->
     Vector2.x (Player.vel (Nat.iter n (Player.velocity_step s no_keys) p))
     = 0%Q) /\
  (Player.frames_ok (Player.frames p) ->
   forall nows : list Z, (bound <= length nows)%nat ->
     exists q,
       Player.run s (map (Player.Update no_keys) nows) p = Ok q /\
       Vector2.x (Player.vel q) = 0%Q).
Proof.
  intros Hf bound. split.
  - intros n Hn. rewrite iter_velocity_step. apply iter_stops; assumption.
  - intros Hok nows Hn.
    destruct (run_no_keys s nows p Hok) as (q & Hrun & Hx).
    exists q. split; [exact Hrun|].
    rewrite Hx. apply iter_stops; assumption.
Qed.

Lemma friction_stops_witness :
  Vector2.x (Player.vel (Nat.iter 418 (Player.velocity_step cfg no_keys)
                           running_player)) = 0%Q /\
  exists q,
    Player.run cfg (map (Player.Update no_keys) (repeat 0 418)) running_player
    = Ok q /\
    Vector2.x (Player.vel q) = 0%Q.
Proof.
  assert (Hf : (0 < PLAYER_FRICTION cfg < 2)%Q) by (split; reflexivity).
  split.
  - apply (proj1 (friction_stops cfg running_player Hf)).
    vm_compute. apply le_n.
  - apply (proj2 (friction_stops cfg running_player Hf)).
    + repeat split; vm_compute; solve [reflexivity | repeat constructor].
    + rewrite repeat_length. vm_compute. apply le_n.
Defined.

(** At friction 0.12 a start velocity of 0.2 is still 0.2 * 0.88^5, above
    0.1, after 5 ticks and is snapped to 0 on the 6th. *)
Example friction_stops_from_slow :
  let p := Player.set_vel running_player (Vector2.vec 0.2 0) in
  (0.1 <= Vector2.x (Player.vel (Nat.iter 5 (Player.velocity_step cfg no_keys)
                                   p)))%Q /\
  Vector2.x (Player.vel (Nat.iter 6 (Player.velocity_step cfg no_keys) p))
  = 0%Q.
Proof. split; vm_compute; [discriminate | reflexivity]. Qed.

(** * Further properties of the module *)

(** ** Invariants of [animate] *)

Section AnimateInvariant.

Variable P : Player.t -> Prop.
Hypothesis P_running : forall p v, P p -> P (Player.set_running p v).
Hypothesis P_mask : forall p v, P p -> P (Player.set_mask p v).
Hypothesis P_next_frame : forall now counted shown p,
  P p -> P (state_of (Player.next_frame now counted shown p)).

Lemma animate_invariant s now p :
  P p -> P (state_of (Player.animate s now p)).
Proof.
  intro H. unfold Player.animate.
  set (p1 := Player.set_running p _).
  assert (H1 : P (state_of (Player.animate_run s now p1))).
  { unfold Player.animate_run.
    destruct (Player.running p1); [|apply P_running, H].
    destruct (_ <? _); [|apply P_running, H].
    apply P_next_frame, P_running, H. }
  destruct (Player.animate_run s now p1) as [q|e q]; unfold bind, state_of in *;
    [|exact H1].
  assert (H2 : P (state_of (Player.animate_idle s now q))).
  { unfold Player.animate_idle.
    destruct (_ && _); [|exact H1].
    destruct (_ <? _); [|exact H1].
    apply P_next_frame, H1. }
  destruct (Player.animate_idle s now q) as [q'|e q']; unfold state_of in *.
  - apply P_mask, H2.
  - exact H2.
Qed.

End AnimateInvariant.

Lemma next_frame_rect_fits now counted shown p :
  rect_fits p -> rect_fits (state_of (Player.next_frame now counted shown p)).
Proof.
  intro H. unfold Player.next_frame.
  destruct (_ =? 0); [exact H|]. cbn.
  destruct (py_index shown _); [|exact H].
  split; reflexivity.
Qed.

Lemma physics_rect_image s keys p :
  Rect.w (Player.rect (Player.physics s keys p)) = Rect.w (Player.rect p) /\
  Rect.h (Player.rect (Player.physics s keys p)) = Rect.h (Player.rect p) /\
  Player.image (Player.physics s keys p) = Player.image p /\
  Player.last_update (Player.physics s keys p) = Player.last_update p.
Proof. unfold_physics. split_ifs; repeat split. Qed.

Lemma jump_unchanged_or_started s platforms bases p :
  Player.jump s platforms bases p = p \/
  Player.jump s platforms bases p
  = Player.set_vel (Player.set_jumping p true)
      (Vector2.set_y (Player.vel p) (PLAYER_JUMP_VEL s * -1)).
Proof.
  unfold Player.jump. cbn.
  destruct (truthy _ && negb (Player.jumping p)).
  - right. destruct p as [? ? ? ? ? ? ? r ? ? ? ?].
    unfold Player.set_vel, Player.set_jumping, Player.set_rect. cbn.
    f_equal. apply jump_restores_rect.
  - left. destruct p as [? ? ? ? ? ? ? r ? ? ? ?].
    unfold Player.set_rect. cbn. f_equal. apply jump_restores_rect.
Qed.

Lemma jump_cut_unchanged_or_cut s p :
  Player.jump_cut s p = p \/
  Player.jump_cut s p
  = Player.set_vel p (Vector2.set_y (Player.vel p) (JUMP_THRESHOLD s * -1)).
Proof.
  unfold Player.jump_cut.
  destruct (Player.jumping p); [|left; reflexivity].
  destruct (Qlt_bool _ _); [right|left]; reflexivity.
Qed.

Lemma step_rect_fits s c p :
  rect_fits p -> rect_fits (state_of (Player.step s c p)).
Proof.
  intro H.
  assert (A : forall now, rect_fits (state_of (Player.animate s now p))).
  { intro now. apply animate_invariant; auto using next_frame_rect_fits. }
  destruct c as [keys now|now|platforms bases|]; cbn [Player.step].
  - unfold Player.update. specialize (A now).
    destruct (Player.animate s now p) as [q|e q]; unfold bind, state_of in *;
      [|exact A].
    destruct (physics_rect_image s keys q) as (Hw & Hh & Hi & _).
    unfold rect_fits. rewrite Hw, Hh, Hi. exact A.
  - apply A.
  - unfold state_of.
    destruct (jump_unchanged_or_started s platforms bases p) as [-> | ->];
      exact H.
  - unfold state_of.
    destruct (jump_cut_unchanged_or_cut s p) as [-> | ->]; exact H.
Qed.

(** X1.  The rect always has the size of the current image: this holds for
    the player [__init__] builds and is kept by every sequence of [update],
    [animate], [jump] and [jump_cut] calls, also when one of them raises. *)
Theorem rect_fits_image :
  (forall s f p, Player.init s f = Some p -> rect_fits p) /\
  (forall s cs p, rect_fits p -> rect_fits (state_of (Player.run s cs p))).
Proof.
  split.
  - intros s f p. unfold Player.init.
    destruct (py_index _ 0); [|discriminate].
    intro H; injection H as <-. split; reflexivity.
  - intros s cs. induction cs as [|c cs IH]; intros p H; [exact H|].
    cbn [Player.run].
    pose proof (step_rect_fits s c p H) as Hs.
    destruct (Player.step s c p) as [q|e q]; unfold bind, state_of in *.
    + apply IH, Hs.
    + exact Hs.
Qed.

Lemma rect_fits_image_witness :
  rect_fits (new_player small_frames) /\
  rect_fits
    (state_of
       (Player.run cfg
          [Player.Update right_key 0; Player.Animate 500;
           Player.Jump some_platforms no_bases; Player.Update left_key 900]
          (new_player small_frames))).
Proof.
  assert (H : rect_fits (new_player small_frames)).
  { apply (proj1 rect_fits_image cfg small_frames). reflexivity. }
  split; [exact H|].
  apply (proj2 rect_fits_image). exact H.
Defined.

(** ** A player whose frame lookups never fail *)

Lemma step_frames s c p :
  Player.frames (state_of (Player.step s c p)) = Player.frames p.
Proof.
  destruct c as [keys now|now|platforms bases|]; cbn [Player.step].
  - unfold Player.update. pose proof (animate_frames s now p) as A.
    destruct (Player.animate s now p) as [q|e q]; unfold bind, state_of in *;
      [|exact A].
    rewrite physics_frames. exact A.
  - apply animate_frames.
  - unfold state_of.
    destruct (jump_unchanged_or_started s platforms bases p) as [-> | ->];
      reflexivity.
  - unfold state_of.
    destruct (jump_cut_unchanged_or_cut s p) as [-> | ->]; reflexivity.
Qed.

Lemma load_images_frames_ok stand hurt jump run shot :
  stand <> [] -> run <> [] ->
  Player.frames_ok (Player.load_images stand hurt jump run shot).
Proof.
  intros Hs Hr. unfold Player.frames_ok, Player.load_images, Player.load_dir.
  cbn. rewrite !length_map.
  destruct stand; [congruence|]. destruct run; [congruence|].
  cbn. repeat split; lia.
Qed.

Lemma run_frames s cs :
  forall p, Player.frames (state_of (Player.run s cs p)) = Player.frames p.
Proof.
  induction cs as [|c cs IH]; intro p; [reflexivity|].
  cbn [Player.run]. pose proof (step_frames s c p) as Hs.
  destruct (Player.step s c p) as [q|e q]; unfold bind, state_of in *.
  - rewrite <- Hs. apply IH.
  - exact Hs.
Qed.

(** X2.  When the standing and the run directories are not empty,
    [__init__] builds a player on which [animate] never raises: neither the
    modulo nor the frame lookup can fail, in whatever state any sequence of
    [update], [animate], [jump] and [jump_cut] calls has left the player. *)
Theorem animate_never_raises_on_loaded_frames (s : Settings)
    (stand hurt jump run shot : list Surface.t) :
  stand <> [] -> run <> [] ->
  exists p,
    Player.init s (Player.load_images stand hurt jump run shot) = Some p /\
    forall cs now,
      exists q, Player.animate s now (state_of (Player.run s cs p)) = Ok q.
Proof.
  intros Hs Hr.
  pose proof (load_images_frames_ok stand hurt jump run shot Hs Hr) as Hok.
  unfold Player.init.
  destruct stand as [|img stand]; [congruence|].
  cbn [Player.load_images Player.load_dir map Player.standing_frames_r py_index].
  cbn [Z.leb Z.to_nat nth_error Z.of_nat length].
  eexists. split; [reflexivity|].
  intros cs now. apply animate_total. rewrite run_frames. exact Hok.
Qed.

Lemma animate_never_raises_on_loaded_frames_witness :
  exists p,
    Player.init cfg
      (Player.load_images
         [Surface.mk 100 200 0 false] [] [] [Surface.mk 100 200 2 false] [])
    = Some p /\
    forall cs now,
      exists q, Player.animate cfg now (state_of (Player.run cfg cs p)) = Ok q.
Proof.
  apply (animate_never_raises_on_loaded_frames cfg
           [Surface.mk 100 200 0 false] [] [] [Surface.mk 100 200 2 false] []);
    discriminate.
Defined.

(** X3.  [__init__] fails (with the [IndexError] of
    [standing_frames_r[0]]) exactly when the standing directory is empty;
    the other four directories may be empty. *)
Theorem init_fails_iff_no_standing_frames (s : Settings)
    (stand hurt jump run shot : list Surface.t) :
  Player.init s (Player.load_images stand hurt jump run shot) = None
  <-> stand = [].
Proof.
  unfold Player.init. destruct stand as [|img stand]; cbn.
  - split; reflexivity.
  - split; discriminate.
Qed.

Lemma init_fails_iff_no_standing_frames_witness :
  Player.init cfg
    (Player.load_images [] [] [] [Surface.mk 100 200 2 false] []) = None.
Proof.
  apply (proj2 (init_fails_iff_no_standing_frames cfg
                  [] [] [] [Surface.mk 100 200 2 false] [])).
  reflexivity.
Defined.

(** ** The rect after [update] *)

(** X4.  After every [update] that returns, the rect sits on [pos]: its
    bottom edge and its centre column [rect.x + w // 2] are integers
    nearest to [pos.y] and [pos.x], at most half a pixel away. *)
Theorem update_syncs_rect (s : Settings) (keys : Keys) (now : Z)
    (p q : Player.t) :
  Player.update s keys now p = Ok q ->
  let cx := Rect.x (Player.rect q) + Rect.w (Player.rect q) / 2 in
  let by_ := Rect.bottom (Player.rect q) in
  (Qabs (Vector2.x (Player.pos q) - inject_Z cx) <= 1 # 2)%Q /\
  (Qabs (Vector2.y (Player.pos q) - inject_Z by_) <= 1 # 2)%Q.
Proof.
  intros H. apply bind_Ok in H as (q1 & _ & H). injection H as <-.
  cbv zeta.
  assert (Ex : Rect.x (Player.rect (Player.physics s keys q1))
               + Rect.w (Player.rect (Player.physics s keys q1)) / 2
               = round_half_away
                   (Vector2.x (Player.pos (Player.physics s keys q1)))).
  { unfold Player.physics, Player.sync_rect. cbn. lia. }
  assert (Ey : Rect.bottom (Player.rect (Player.physics s keys q1))
               = round_half_away
                   (Vector2.y (Player.pos (Player.physics s keys q1)))).
  { unfold Player.physics, Player.sync_rect, Rect.bottom. cbn. lia. }
  rewrite Ex, Ey. split; apply round_half_away_near.
Qed.

Lemma update_syncs_rect_witness :
  let cx := Rect.x (Player.rect edge_tick1) + Rect.w (Player.rect edge_tick1) / 2 in
  let by_ := Rect.bottom (Player.rect edge_tick1) in
  (Qabs (Vector2.x (Player.pos edge_tick1) - inject_Z cx) <= 1 # 2)%Q /\
  (Qabs (Vector2.y (Player.pos edge_tick1) - inject_Z by_) <= 1 # 2)%Q.
Proof.
  apply (update_syncs_rect cfg left_key 0 edge_player edge_tick1).
  vm_compute. reflexivity.
Defined.

(** ** A frame change switches the left clamp off *)

Lemma next_frame_Ok now counted shown p q :
  Player.next_frame now counted shown p = Ok q ->
  Rect.x (Player.rect q) = 0 /\ Player.running q = Player.running p.
Proof.
  unfold Player.next_frame.
  destruct (_ =? 0); [discriminate|]. cbn.
  destruct (py_index shown _); [|discriminate].
  intro H; injection H as <-. split; reflexivity.
Qed.

Lemma animate_run_Ok s now p q :
  Player.animate_run s now p = Ok q ->
  q = p \/ (Rect.x (Player.rect q) = 0 /\ Player.running q = true).
Proof.
  unfold Player.animate_run.
  destruct (Player.running p) eqn:R; [|intro H; injection H as <-; auto].
  destruct (_ <? _); [|intro H; injection H as <-; auto].
  intro H. apply next_frame_Ok in H as [Hx Hr]. right. split; congruence.
Qed.

Lemma animate_idle_Ok s now p q :
  Player.animate_idle s now p = Ok q ->
  q = p \/ (Rect.x (Player.rect q) = 0 /\ Player.running p = false).
Proof.
  unfold Player.animate_idle.
  destruct (Player.running p) eqn:R.
  - rewrite andb_false_r. intro H; injection H as <-; auto.
  - destruct (negb (Player.jumping p)); cbn;
      [|intro H; injection H as <-; auto].
    destruct (_ <? _); [|intro H; injection H as <-; auto].
    intro H. apply next_frame_Ok in H as [Hx Hr]. auto.
Qed.

(** When [animate] stamped [last_update], it left a fresh rect at x = 0. *)
Lemma animate_stamp_resets_rect s now p q :
  Player.animate s now p = Ok q ->
  Player.last_update q <> Player.last_update p ->
  Rect.x (Player.rect q) = 0.
Proof.
  unfold Player.animate. set (p1 := Player.set_running p _).
  intros H Hl.
  apply bind_Ok in H as (q1 & H1 & H).
  apply bind_Ok in H as (q2 & H2 & H). injection H as <-.
  cbn in Hl |- *.
  apply animate_run_Ok in H1. apply animate_idle_Ok in H2.
  destruct H2 as [-> | [Hx _]]; [|exact Hx].
  destruct H1 as [-> | [Hx _]]; [|exact Hx].
  exfalso. apply Hl. reflexivity.
Qed.

Lemma physics_no_clamp s keys p :
  0 <= Rect.left (Player.rect p) ->
  Vector2.x (Player.pos (Player.physics s keys p))
  = (Vector2.x (Player.pos p)
     + (Vector2.x (Player.vel (Player.physics s keys p))
        + 0.5 * Vector2.x (Player.acc (Player.physics s keys p))))%Q.
Proof.
  intro H.
  assert (R : Player.rect (Player.velocity_step s keys p) = Player.rect p).
  { unfold Player.velocity_step, Player.deadzone,
      Player.integrate_velocity, Player.apply_friction, Player.apply_input,
      Player.apply_gravity.
    split_ifs; reflexivity. }
  assert (Pp : Player.pos (Player.velocity_step s keys p) = Player.pos p).
  { unfold Player.velocity_step, Player.deadzone,
      Player.integrate_velocity, Player.apply_friction, Player.apply_input,
      Player.apply_gravity.
    split_ifs; reflexivity. }
  assert (C : (Rect.left (Player.rect p) <? 0) = false)
    by (apply Z.ltb_ge; exact H).
  unfold Player.physics, Player.sync_rect, Player.clamp_left,
    Player.integrate_position.
  cbn. rewrite R, C. cbn. rewrite Pp. reflexivity.
Qed.

(** X5.  On a tick where [animate] changes the frame (it stamps
    [last_update]), the new rect starts at x = 0, so the left clamp does
    not fire whatever the rect was before: [pos.x] is the plain integration
    result [pos.x + vel.x + 0.5 * acc.x]. *)
Theorem frame_change_skips_clamp (s : Settings) (keys : Keys) (now : Z)
    (p q : Player.t) :
  Player.update s keys now p = Ok q ->
  Player.last_update q <> Player.last_update p ->
  Vector2.x (Player.pos q)
  = (Vector2.x (Player.pos p)
     + (Vector2.x (Player.vel q) + 0.5 * Vector2.x (Player.acc q)))%Q.
Proof.
  intros H Hl. apply bind_Ok in H as (q1 & Ha & H). injection H as <-.
  destruct (physics_rect_image s keys q1) as (_ & _ & _ & El).
  rewrite El in Hl.
  pose proof (animate_stamp_resets_rect s now p q1 Ha Hl) as Hx.
  pose proof (animate_pos s now p) as Hp. rewrite Ha in Hp. cbn in Hp.
  rewrite <- Hp. apply physics_no_clamp. unfold Rect.left. lia.
Qed.

Lemma frame_change_skips_clamp_witness :
  Rect.left (Player.rect wide_player) = -40 /\
  Vector2.x (Player.pos wide_tick_frame)
  = (Vector2.x (Player.pos wide_player)
     + (Vector2.x (Player.vel wide_tick_frame)
        + 0.5 * Vector2.x (Player.acc wide_tick_frame)))%Q.
Proof.
  split; [reflexivity|].
  apply (frame_change_skips_clamp cfg no_keys 500 wide_player wide_tick_frame).
  - vm_compute. reflexivity.
  - vm_compute. discriminate.
Defined.

(** ** Terminal speed *)

Section TerminalSpeed.

Variable s : Settings.
Hypothesis friction_range : (0 < PLAYER_FRICTION s <= 1)%Q.
Hypothesis acc_nonneg : (0 <= PLAYER_ACC s)%Q.

Lemma within_terminal_speed_iff p :
  within_terminal_speed s p <->
  (- PLAYER_ACC s <= PLAYER_FRICTION s * Vector2.x (Player.vel p)
   <= PLAYER_ACC s)%Q.
Proof.
  unfold within_terminal_speed.
  set (f := PLAYER_FRICTION s) in *. set (v := Vector2.x (Player.vel p)).
  assert (E : (f * Qabs v == Qabs (f * v))%Q).
  { rewrite Qabs_Qmult, (Qabs_pos f) by lra. reflexivity. }
  rewrite E. apply Qabs_Qle_condition.
Qed.

Lemma velocity_step_terminal keys p :
  within_terminal_speed s p ->
  within_terminal_speed s (Player.velocity_step s keys p).
Proof.
  rewrite !within_terminal_speed_iff.
  unfold Player.velocity_step, Player.deadzone, Player.integrate_velocity,
    Player.apply_friction, Player.apply_input, Player.apply_gravity.
  set (f := PLAYER_FRICTION s) in *. set (a := PLAYER_ACC s) in *.
  set (v := Vector2.x (Player.vel p)). intros [L U].
  assert (P1 : (0 <= (1 - f) * (a - f * v))%Q)
    by (apply Qmult_le_0_compat; lra).
  assert (P2 : (0 <= (1 - f) * (a + f * v))%Q)
    by (apply Qmult_le_0_compat; lra).
  assert (P3 : (0 <= f * a)%Q) by (apply Qmult_le_0_compat; lra).
  destruct (K_LEFT keys); [|destruct (K_RIGHT keys)]; cbn;
    fold v;
    match goal with
    | |- context [if ?c then _ else _] => destruct c
    end; cbn; fold v; split; nra.
Qed.

Lemma step_terminal c p :
  within_terminal_speed s p ->
  within_terminal_speed s (state_of (Player.step s c p)).
Proof.
  intro H. unfold within_terminal_speed in *.
  destruct c as [keys now|now|platforms bases|]; cbn [Player.step].
  - unfold Player.update. pose proof (animate_vel s now p) as A.
    destruct (Player.animate s now p) as [q|e q]; unfold bind, state_of in *.
    + rewrite physics_vel. apply velocity_step_terminal.
      unfold within_terminal_speed. rewrite A. exact H.
    + rewrite A. exact H.
  - rewrite animate_vel. exact H.
  - unfold state_of.
    destruct (jump_unchanged_or_started s platforms bases p) as [-> | ->];
      exact H.
  - unfold state_of.
    destruct (jump_cut_unchanged_or_cut s p) as [-> | ->]; exact H.
Qed.

Lemma run_terminal cs :
  forall p, within_terminal_speed s p ->
  within_terminal_speed s (state_of (Player.run s cs p)).
Proof.
  induction cs as [|c cs IH]; intros p H; [exact H|].
  cbn [Player.run]. pose proof (step_terminal c p H) as Hs.
  destruct (Player.step s c p) as [q|e q]; unfold bind, state_of in *.
  - apply IH, Hs.
  - exact Hs.
Qed.

End TerminalSpeed.

(** X6.  With a friction coefficient in (0, 1] and a non-negative
    acceleration, the horizontal speed never exceeds
    [PLAYER_ACC / PLAYER_FRICTION]: a player within that speed (a new player
    is, at speed 0) stays within it under every sequence of calls and key
    snapshots. *)
Theorem speed_never_exceeds_terminal (s : Settings) (cs : list Player.call)
    (p : Player.t) :
  (0 < PLAYER_FRICTION s <= 1)%Q ->
  (0 <= PLAYER_ACC s)%Q ->
  (PLAYER_FRICTION s * Qabs (Vector2.x (Player.vel p)) <= PLAYER_ACC s)%Q ->
  (PLAYER_FRICTION s
   * Qabs (Vector2.x (Player.vel (state_of (Player.run s cs p))))
   <= PLAYER_ACC s)%Q.
Proof.
  intros Hf Ha H. apply (run_terminal s Hf Ha cs p H).
Qed.

Lemma speed_never_exceeds_terminal_witness :
  (PLAYER_FRICTION cfg
   * Qabs (Vector2.x (Player.vel (state_of
       (Player.run cfg
          [Player.Update right_key 0; Player.Update right_key 16;
           Player.Update left_key 33; Player.Jump some_platforms no_bases]
          (new_player small_frames)))))
   <= PLAYER_ACC cfg)%Q.
Proof.
  apply (speed_never_exceeds_terminal cfg).
  - split; [reflexivity | discriminate].
  - discriminate.
  - discriminate.
Defined.

(** ** Free fall *)

Lemma run_updates_fall s (ticks : list (Keys * Z)) :
  forall p q,
  Player.run s (map (fun t => Player.Update (fst t) (snd t)) ticks) p = Ok q ->
  let n := inject_Z (Z.of_nat (length ticks)) in
  (Vector2.y (Player.vel q)
   == Vector2.y (Player.vel p) + n * PLAYER_GRAV s)%Q /\
  (Vector2.y (Player.pos q)
   == Vector2.y (Player.pos p) + n * Vector2.y (Player.vel p)
      + PLAYER_GRAV s * n * (n + 2) * 0.5)%Q.
Proof.
  induction ticks as [|[keys now] ticks IH]; intros p q H n.
  - cbn in H. injection H as <-. subst n. cbn [length Z.of_nat].
    change (inject_Z 0) with 0%Q. split; ring.
  - cbn [map Player.run fst snd Player.step] in H.
    apply bind_Ok in H as (p1 & Hu & Hrun).
    apply bind_Ok in Hu as (q1 & Ha & Hu). injection Hu as <-.
    pose proof (animate_vel s now p) as Hv.
    pose proof (animate_pos s now p) as Hp.
    rewrite Ha in Hv, Hp. unfold state_of in Hv, Hp.
    destruct (IH _ _ Hrun) as (Hvy & Hpy).
    split.
    + rewrite Hvy, physics_vel_y, Hv. subst n.
      cbn [length]. rewrite Nat2Z.inj_succ. unfold Z.succ.
      rewrite inject_Z_plus. change (inject_Z 1) with 1%Q. ring.
    + rewrite Hpy, physics_pos_y, physics_vel_y, Hv, Hp. subst n.
      cbn [length]. rewrite Nat2Z.inj_succ. unfold Z.succ.
      rewrite inject_Z_plus. change (inject_Z 1) with 1%Q. ring.
Qed.

(** X7.  [update] has no landing: whenever [n] ticks of [update] alone
    have returned, with whatever keys held, [vel.y] has grown by
    [n * PLAYER_GRAV] and [pos.y] by
    [n * vel.y + PLAYER_GRAV * n * (n + 2) / 2], whatever platforms
    exist. *)
Theorem update_free_fall (s : Settings) (ticks : list (Keys * Z))
    (p q : Player.t) :
  Player.run s (map (fun t => Player.Update (fst t) (snd t)) ticks) p = Ok q ->
  let n := inject_Z (Z.of_nat (length ticks)) in
  (Vector2.y (Player.vel q)
   == Vector2.y (Player.vel p) + n * PLAYER_GRAV s)%Q /\
  (Vector2.y (Player.pos q)
   == Vector2.y (Player.pos p) + n * Vector2.y (Player.vel p)
      + PLAYER_GRAV s * n * (n + 2) * 0.5)%Q.
Proof. apply run_updates_fall. Qed.

Lemma update_free_fall_witness :
  (Vector2.y (Player.vel fall_tick3) == 0 + 3 * 0.8)%Q /\
  (Vector2.y (Player.pos fall_tick3)
   == 550 + 3 * 0 + 0.8 * 3 * (3 + 2) * 0.5)%Q.
Proof.
  apply (update_free_fall cfg [(no_keys, 0); (right_key, 16); (left_key, 33)]
           (new_player small_frames) fall_tick3).
  vm_compute. reflexivity.
Defined.

(** ** More on jumping *)

Lemma jump_noop_when_jumping s platforms bases p :
  Player.jumping p = true -> Player.jump s platforms bases p = p.
Proof.
  intro Hj. unfold Player.jump. cbn. rewrite Hj, andb_false_r.
  destruct p as [? ? ? ? ? ? ? r ? ? ? ?]. unfold Player.set_rect. cbn.
  f_equal. apply jump_restores_rect.
Qed.

(** X8.  [jump] only ever touches [jumping] and [vel.y]: the rect, moved
    for the overlap tests, is back where it was, and position, horizontal
    velocity, image and frame counter are unchanged.  A second [jump] right
    after the first changes nothing more. *)
Theorem jump_probe_is_clean (s : Settings) (platforms bases : list Rect.t)
    (p : Player.t) :
  let q := Player.jump s platforms bases p in
  Player.rect q = Player.rect p /\
  Player.pos q = Player.pos p /\
  Vector2.x (Player.vel q) = Vector2.x (Player.vel p) /\
  Player.acc q = Player.acc p /\
  Player.image q = Player.image p /\
  Player.current_frame q = Player.current_frame p /\
  Player.last_update q = Player.last_update p /\
  Player.jump s platforms bases q = q.
Proof.
  cbv zeta.
  destruct (jump_unchanged_or_started s platforms bases p) as [E | E];
    rewrite E.
  - repeat split. exact E.
  - repeat split. apply jump_noop_when_jumping. reflexivity.
Qed.

(** X9.  [jump_cut] is idempotent.  Right after a jump that started (not
    jumping before, an overlap at the probe), [jump_cut] leaves the rise at
    exactly [-JUMP_THRESHOLD] when the jump velocity exceeds the threshold,
    and leaves the full jump velocity otherwise. *)
Theorem jump_then_jump_cut (s : Settings) (platforms bases : list Rect.t)
    (p : Player.t) :
  Player.jump_cut s (Player.jump_cut s p) = Player.jump_cut s p /\
  (Player.jumping p = false ->
   spritecollide (Rect.set_x (Player.rect p) (Rect.x (Player.rect p) + 2))
     (platforms ++ bases) <> [] ->
   let q := Player.jump_cut s (Player.jump s platforms bases p) in
   Player.jumping q = true /\
   ((JUMP_THRESHOLD s < PLAYER_JUMP_VEL s)%Q ->
    (Vector2.y (Player.vel q) == - JUMP_THRESHOLD s)%Q) /\
   ((PLAYER_JUMP_VEL s <= JUMP_THRESHOLD s)%Q ->
    (Vector2.y (Player.vel q) == - PLAYER_JUMP_VEL s)%Q)).
Proof.
  split.
  - destruct (jump_cut_unchanged_or_cut s p) as [E | E]; rewrite E.
    + exact E.
    + unfold Player.jump_cut in *.
      destruct (Player.jumping p) eqn:Hj.
      * cbn. rewrite Hj.
        assert (C : Qlt_bool (JUMP_THRESHOLD s * -1) (JUMP_THRESHOLD s * -1)
                    = false) by (apply Qlt_bool_false_iff, Qle_refl).
        rewrite C. reflexivity.
      * cbn. rewrite Hj. reflexivity.
  - intros Hj Hhit. cbv zeta.
    assert (Hh : truthy (py_or
                   (spritecollide
                      (Rect.set_x (Player.rect p) (Rect.x (Player.rect p) + 2))
                      platforms)
                   (spritecollide
                      (Rect.set_x (Player.rect p) (Rect.x (Player.rect p) + 2))
                      bases)) = true).
    { unfold spritecollide in *. rewrite filter_app in Hhit.
      destruct (filter _ platforms); [|reflexivity]. cbn in *.
      destruct (filter _ bases); [congruence|reflexivity]. }
    assert (E : Player.jump s platforms bases p
                = Player.set_vel (Player.set_jumping p true)
                    (Vector2.set_y (Player.vel p) (PLAYER_JUMP_VEL s * -1))).
    { destruct (jump_unchanged_or_started s platforms bases p) as [E | E];
        [|exact E].
      exfalso. unfold Player.jump in E. cbn in E. cbn in Hh.
      rewrite Hh, Hj in E. cbn in E.
      apply (f_equal Player.jumping) in E. cbn in E. congruence. }
    rewrite E. unfold Player.jump_cut. cbn.
    destruct (Qlt_bool (PLAYER_JUMP_VEL s * -1) (JUMP_THRESHOLD s * -1)) eqn:C.
    + apply Qlt_bool_iff in C. cbn. repeat split.
      * intros _. ring.
      * intro H. exfalso. lra.
    + apply Qlt_bool_false_iff in C. cbn. repeat split.
      * intro H. exfalso. lra.
      * intros _. ring.
Qed.

Lemma jump_then_jump_cut_witness :
  let q :=
    Player.jump_cut cfg
      (Player.jump cfg some_platforms no_bases (new_player small_frames)) in
  Player.jumping q = true /\
  (Vector2.y (Player.vel q) == - JUMP_THRESHOLD cfg)%Q.
Proof.
  cbv zeta.
  destruct (proj2 (jump_then_jump_cut cfg some_platforms no_bases
                     (new_player small_frames))) as (Hj & Hcut & _).
  - reflexivity.
  - vm_compute. discriminate.
  - split; [exact Hj|]. apply Hcut. reflexivity.
Defined.

(** ** More on [animate] *)

(** X10.  [animate] changes no frame, and cannot raise even on empty frame
    lists, in two cases: while the player is jumping with no horizontal
    velocity, and while neither interval has elapsed since [last_update].
    It then only refreshes [running] and [mask]. *)
Theorem animate_without_frame_change (s : Settings) (now : Z)
    (p : Player.t) :
  (Player.jumping p = true -> (Vector2.x (Player.vel p) == 0)%Q ->
   Player.animate s now p
   = Ok (Player.set_mask (Player.set_running p false)
           (Some (Player.image p)))) /\
  (now - Player.last_update p <= PLAYER_RUN_FREQ s ->
   now - Player.last_update p <= PLAYER_IDLE_FREQ s ->
   Player.animate s now p
   = Ok (Player.set_mask
           (Player.set_running p
              (negb (Qeq_bool (Vector2.x (Player.vel p)) 0)))
           (Some (Player.image p)))).
Proof.
  split.
  - intros Hj Hv. apply Qeq_bool_iff in Hv.
    unfold Player.animate, Player.animate_run, Player.animate_idle.
    rewrite Hv. cbn. rewrite Hj. reflexivity.
  - intros Hr Hi.
    assert (Cr : (PLAYER_RUN_FREQ s <? now - Player.last_update p) = false)
      by (apply Z.ltb_ge; exact Hr).
    assert (Ci : (PLAYER_IDLE_FREQ s <? now - Player.last_update p) = false)
      by (apply Z.ltb_ge; exact Hi).
    unfold Player.animate, Player.animate_run, Player.animate_idle.
    destruct (negb (Qeq_bool (Vector2.x (Player.vel p)) 0)); cbn.
    + rewrite Cr. cbn. rewrite andb_false_r. reflexivity.
    + destruct (negb (Player.jumping p)); cbn; [rewrite Ci|]; reflexivity.
Qed.

Lemma animate_without_frame_change_witness :
  Player.animate cfg 5000 rising_player
  = Ok (Player.set_mask (Player.set_running rising_player false)
          (Some (Player.image rising_player))) /\
  Player.animate cfg 50 moving_player
  = Ok (Player.set_mask
          (Player.set_running moving_player
             (negb (Qeq_bool (Vector2.x (Player.vel moving_player)) 0)))
          (Some (Player.image moving_player))).
Proof.
  split.
  - apply (proj1 (animate_without_frame_change cfg 5000 rising_player));
      reflexivity.
  - apply (proj2 (animate_without_frame_change cfg 50 moving_player));
      vm_compute; discriminate.
Defined.

Lemma next_frame_Ok_full now counted shown p q :
  Player.next_frame now counted shown p = Ok q ->
  Player.last_update q = now /\
  Player.current_frame q
  = (Player.current_frame p + 1) mod Z.of_nat (length counted) /\
  py_index shown (Player.current_frame q) = Some (Player.image q) /\
  0 <= Player.current_frame q < Z.of_nat (length counted) /\
  Player.running q = Player.running p.
Proof.
  unfold Player.next_frame.
  destruct (_ =? 0) eqn:E; [discriminate|]. cbn.
  destruct (py_index shown _) eqn:I; [|discriminate].
  intro H; injection H as <-. cbn. repeat split; auto;
    apply Z.eqb_neq in E; apply Z.mod_pos_bound; lia.
Qed.

(** X11.  When [animate] returns having changed the frame (it stamped
    [last_update]), the stamp is [now], the mask is the new image, and the
    new image is the frame at the new index [(current_frame + 1) mod length]
    of the list that matches the motion: a run frame, right-facing exactly
    when [vel.x > 0], if the player moves horizontally; otherwise (only
    when not jumping) a standing frame, right-facing exactly when
    [pos.x > 0].  The new index is within the list. *)
Theorem animate_frame_choice (s : Settings) (now : Z) (p q : Player.t) :
  Player.animate s now p = Ok q ->
  Player.last_update q <> Player.last_update p ->
  let f := Player.frames p in
  let vx := Vector2.x (Player.vel p) in
  Player.last_update q = now /\
  Player.mask q = Some (Player.image q) /\
  ((~ (vx == 0)%Q /\
    Player.current_frame q
    = (Player.current_frame p + 1)
        mod Z.of_nat (length (Player.run_frames_l f)) /\
    0 <= Player.current_frame q < Z.of_nat (length (Player.run_frames_l f)) /\
    py_index (if Qlt_bool 0 vx then Player.run_frames_r f
              else Player.run_frames_l f)
             (Player.current_frame q) = Some (Player.image q))
   \/
   ((vx == 0)%Q /\ Player.jumping p = false /\
    Player.current_frame q
    = (Player.current_frame p + 1)
        mod Z.of_nat (length (Player.standing_frames_r f)) /\
    0 <= Player.current_frame q
      < Z.of_nat (length (Player.standing_frames_r f)) /\
    py_index (if Qlt_bool 0 (Vector2.x (Player.pos p))
              then Player.standing_frames_r f
              else Player.standing_frames_l f)
             (Player.current_frame q) = Some (Player.image q))).
Proof.
  unfold Player.animate. intros H Hl. cbv zeta.
  destruct (Qeq_bool (Vector2.x (Player.vel p)) 0) eqn:Ev; cbn [negb] in H.
  - (* at rest: the run block is skipped *)
    apply Qeq_bool_iff in Ev.
    unfold Player.animate_run in H. cbn in H.
    unfold Player.animate_idle in H. cbn in H.
    destruct (negb (Player.jumping p)) eqn:Ej; cbn in H;
      [|injection H as <-; exfalso; apply Hl; reflexivity].
    destruct (_ <? _); cbn in H;
      [|injection H as <-; exfalso; apply Hl; reflexivity].
    apply bind_Ok in H as (q2 & H2 & H). injection H as <-.
    apply next_frame_Ok_full in H2 as (L & C & I & B & _). cbn in *.
    split; [exact L|]. split; [reflexivity|]. right.
    apply negb_true_iff in Ej. auto.
  - (* moving: the idle block is skipped *)
    assert (Hv : ~ (Vector2.x (Player.vel p) == 0)%Q).
    { intro E. apply Qeq_bool_iff in E. congruence. }
    unfold Player.animate_run in H. cbn in H.
    destruct (_ <? _); cbn in H.
    + apply bind_Ok in H as (q1 & H1 & H).
      apply next_frame_Ok_full in H1 as (L & C & I & B & R). cbn in *.
      unfold Player.animate_idle in H. rewrite R, andb_false_r in H.
      injection H as <-. cbn.
      split; [exact L|]. split; [reflexivity|]. left. auto.
    + unfold Player.animate_idle in H. cbn in H.
      rewrite andb_false_r in H. injection H as <-.
      exfalso. apply Hl. reflexivity.
Qed.

Lemma animate_frame_choice_witness :
  exists q,
    Player.animate cfg 500 (new_player small_frames) = Ok q /\
    Player.last_update q = 500 /\
    Player.mask q = Some (Player.image q) /\
    Player.current_frame q = 1 /\
    py_index (Player.standing_frames_r small_frames) 1
    = Some (Player.image q).
Proof.
  exists (state_of (Player.animate cfg 500 (new_player small_frames))).
  destruct (animate_frame_choice cfg 500 (new_player small_frames)
              (state_of (Player.animate cfg 500 (new_player small_frames))))
    as (L & M & [(Hv & _) | (_ & _ & C & _ & I)]).
  - vm_compute. reflexivity.
  - vm_compute. discriminate.
  - exfalso. apply Hv. reflexivity.
  - repeat split; try assumption; vm_compute; reflexivity.
Defined.

(** X12.  [jump] needs a real overlap: when the probe rect (the rect moved
    2 pixels right) overlaps no platform and no base, nothing changes.  In
    particular a player whose bottom edge is at or above the top edge of
    every platform and base, resting exactly on top of one included, cannot
    jump. *)
Theorem jump_needs_overlap (s : Settings) (platforms bases : list Rect.t)
    (p : Player.t) :
  (spritecollide (Rect.set_x (Player.rect p) (Rect.x (Player.rect p) + 2))
     (platforms ++ bases) = [] ->
   Player.jump s platforms bases p = p) /\
  ((forall t, In t (platforms ++ bases) ->
              Rect.bottom (Player.rect p) <= Rect.y t) ->
   Player.jump s platforms bases p = p).
Proof.
  assert (A : spritecollide
                (Rect.set_x (Player.rect p) (Rect.x (Player.rect p) + 2))
                (platforms ++ bases) = [] ->
              Player.jump s platforms bases p = p).
  { intro H. unfold spritecollide in H. rewrite filter_app in H.
    apply app_eq_nil in H as [Hp Hb].
    unfold Player.jump, spritecollide. cbn. rewrite Hp, Hb. cbn.
    destruct p as [? ? ? ? ? ? ? r ? ? ? ?]. unfold Player.set_rect. cbn.
    f_equal. apply jump_restores_rect. }
  split; [exact A|].
  intro H. apply A. unfold spritecollide.
  revert H. generalize (platforms ++ bases) as l.
  induction l as [|t l IH]; intro H; [reflexivity|].
  cbn [filter].
  assert (C : Rect.colliderect
                (Rect.set_x (Player.rect p) (Rect.x (Player.rect p) + 2)) t
              = false).
  { specialize (H t (or_introl eq_refl)).
    unfold Rect.colliderect, Rect.bottom in *. cbn.
    assert (E : (Rect.y t <? Rect.y (Player.rect p) + Rect.h (Player.rect p))
                = false) by (apply Z.ltb_ge; exact H).
    rewrite E. apply andb_false_r. }
  rewrite C. apply IH. intros t' Ht'. apply H. right. exact Ht'.
Qed.

Lemma jump_needs_overlap_witness :
  Player.jump cfg [Rect.mk 0 570 190 47] [Rect.mk 0 570 800 30]
    (new_player small_frames)
  = new_player small_frames.
Proof.
  apply (proj2 (jump_needs_overlap cfg [Rect.mk 0 570 190 47]
                  [Rect.mk 0 570 800 30] (new_player small_frames))).
  intros t [<- | [<- | []]]; vm_compute; discriminate.
Defined.

(** ** Random draws *)

Lemma randrange_range a b draw v :
  randrange a b draw = Some v -> a <= v < b.
Proof.
  unfold randrange. destruct (a <? b) eqn:E; [|discriminate].
  apply Z.ltb_lt in E. intro H; injection H as <-.
  pose proof (Z.mod_pos_bound draw (b - a)). lia.
Qed.

Lemma randrange_some a b draw :
  a < b -> exists v, randrange a b draw = Some v.
Proof.
  intro H. unfold randrange. apply Z.ltb_lt in H. rewrite H. eauto.
Qed.

Lemma choice_In {A : Type} (seq : list A) draw a :
  choice seq draw = Some a -> In a seq.
Proof.
  unfold choice. destruct seq; [discriminate|]. apply nth_error_In.
Qed.

Lemma choice_some {A : Type} (seq : list A) draw :
  seq <> [] -> exists a, choice seq draw = Some a.
Proof.
  intro H. unfold choice. destruct seq as [|x l]; [congruence|].
  set (n := Z.of_nat (length (x :: l))).
  assert (Hn : 0 < n) by (unfold n; cbn [length]; lia).
  pose proof (Z.mod_pos_bound draw n Hn) as B.
  destruct (nth_error (x :: l) (Z.to_nat (draw mod n))) eqn:E; [eauto|].
  apply nth_error_None in E. unfold n in *. lia.
Qed.

(** ** Slime *)

Lemma slime_animate_Ok now e :
  Slime.walk_images e <> [] ->
  exists e',
    Slime.animate now e = Ok e' /\
    Slime.rect e' = Slime.rect e /\ Slime.vx e' = Slime.vx e /\
    Slime.walk_images e' = Slime.walk_images e.
Proof.
  intro H. unfold Slime.animate.
  destruct (180 <? _); [|cbn; eauto].
  unfold Slime.next_frame.
  assert (L : (0 < length (Slime.walk_images e))%nat)
    by (destruct (Slime.walk_images e); [congruence | cbn; lia]).
  cbn.
  destruct (Z.of_nat (length (Slime.walk_images e)) =? 0) eqn:E;
    [apply Z.eqb_eq in E; lia|].
  destruct (py_index_mod (Slime.walk_images e) (Slime.current_frame e) L)
    as [img ->].
  cbn. eauto.
Qed.

Lemma slime_update_Ok now e g :
  Slime.walk_images e <> [] ->
  exists e' g',
    Slime.update now (e, g) = Ok (e', g') /\
    Rect.x (Slime.rect e') = Rect.x (Slime.rect e) - Slime.vx e /\
    Rect.y (Slime.rect e') = Rect.y (Slime.rect e) /\
    Rect.w (Slime.rect e') = Rect.w (Slime.rect e) /\
    Rect.h (Slime.rect e') = Rect.h (Slime.rect e) /\
    Slime.vx e' = Slime.vx e /\
    Slime.walk_images e' = Slime.walk_images e /\
    g' = (if Rect.right (Slime.rect e') <? 0 then [] else g).
Proof.
  intro H. destruct (slime_animate_Ok now e H) as (e1 & Ha & Hr & Hv & Hw).
  unfold Slime.update. cbn [fst snd]. rewrite Ha.
  cbv zeta.
  destruct (Rect.right _ <? 0) eqn:E;
    eexists; eexists; (split; [reflexivity|]); cbn;
    rewrite ?Hr, ?Hv, ?Hw; cbn in E; rewrite ?Hr, ?Hv in E;
    unfold Rect.right in *; cbn in *; rewrite ?E; repeat split.
Qed.

Lemma slime_run_walk (nows : list Z) (e : Slime.t) (g : list Group.t) :
  Slime.walk_images e <> [] ->
  0 <= Slime.vx e ->
  let n := Z.of_nat (length nows) in
  exists e' g',
    Slime.run nows (e, g) = Ok (e', g') /\
    Rect.x (Slime.rect e') = Rect.x (Slime.rect e) - n * Slime.vx e /\
    Rect.y (Slime.rect e') = Rect.y (Slime.rect e) /\
    Rect.w (Slime.rect e') = Rect.w (Slime.rect e) /\
    Rect.h (Slime.rect e') = Rect.h (Slime.rect e) /\
    (0 <= Rect.right (Slime.rect e') -> g' = g) /\
    (Rect.right (Slime.rect e') < 0 -> nows <> [] -> g' = []) /\
    (1 <= Slime.vx e -> 0 <= Rect.right (Slime.rect e) < n -> g' = []).
Proof.
  revert e g.
  induction nows as [|now nows IH]; intros e g Hw Hv n.
  - exists e, g. subst n. cbn. repeat split; try lia; try congruence.
  - destruct (slime_update_Ok now e g Hw)
      as (e1 & g1 & Hu & Hx & Hy & Hww & Hh & Hvx & Hwi & Hg).
    assert (Hw1 : Slime.walk_images e1 <> []) by (rewrite Hwi; exact Hw).
    assert (Hv1 : 0 <= Slime.vx e1) by (rewrite Hvx; exact Hv).
    destruct (IH e1 g1 Hw1 Hv1)
      as (e' & g' & Hr & Hx' & Hy' & Hw' & Hh' & Hkeep & Hgone & _).
    exists e', g'.
    assert (Hn : n = Z.of_nat (length nows) + 1)
      by (subst n; cbn [length]; lia).
    assert (Hm : 0 <= Z.of_nat (length nows) * Slime.vx e) by nia.
    assert (Ex : Rect.x (Slime.rect e')
                 = Rect.x (Slime.rect e) - n * Slime.vx e)
      by (rewrite Hx', Hx, Hvx, Hn; ring).
    assert (Gone : Rect.right (Slime.rect e') < 0 -> g' = []).
    { intro R. destruct nows as [|now' nows'].
      - cbn in Hr. injection Hr as <- <-.
        rewrite Hg. apply Z.ltb_lt in R. rewrite R. reflexivity.
      - apply Hgone; [exact R | discriminate]. }
    split; [cbn [Slime.run]; rewrite Hu; exact Hr|].
    split; [exact Ex|].
    split; [congruence|]. split; [congruence|]. split; [congruence|].
    split; [|split].
    + intro R. rewrite (Hkeep R). rewrite Hg.
      assert (R1 : 0 <= Rect.right (Slime.rect e1)).
      { unfold Rect.right in *. rewrite Hx', Hw', Hvx in R. lia. }
      apply Z.ltb_ge in R1. rewrite R1. reflexivity.
    + intros R _. apply Gone, R.
    + intros V R. apply Gone. unfold Rect.right in *.
      rewrite Ex, Hw', Hww. nia.
Qed.

(** X13.  A slime moves left by its speed on every [update], whether or
    not its frame changes, and its rect is never resized or moved
    vertically.  With a non-negative speed it stays in its groups as long as
    its right edge has not passed the left screen edge, and has left every
    group once it has; at speed 1 or more it is gone after more ticks than
    its right edge was from 0. *)
Theorem slime_walks_off (nows : list Z) (e : Slime.t) (g : list Group.t) :
  Slime.walk_images e <> [] ->
  0 <= Slime.vx e ->
  let n := Z.of_nat (length nows) in
  exists e' g',
    Slime.run nows (e, g) = Ok (e', g') /\
    Rect.x (Slime.rect e') = Rect.x (Slime.rect e) - n * Slime.vx e /\
    Rect.y (Slime.rect e') = Rect.y (Slime.rect e) /\
    Rect.w (Slime.rect e') = Rect.w (Slime.rect e) /\
    Rect.h (Slime.rect e') = Rect.h (Slime.rect e) /\
    (0 <= Rect.right (Slime.rect e') -> g' = g) /\
    (Rect.right (Slime.rect e') < 0 -> nows <> [] -> g' = []) /\
    (1 <= Slime.vx e -> 0 <= Rect.right (Slime.rect e) < n -> g' = []).
Proof. apply slime_run_walk. Qed.

Lemma slime_walks_off_witness :
  exists e' g',
    Slime.run [0; 16; 33] new_slime = Ok (e', g') /\
    Rect.x (Slime.rect e') = 800 - 3 * 2 /\
    Rect.y (Slime.rect e') = 463 /\
    Rect.w (Slime.rect e') = 75 /\
    Rect.h (Slime.rect e') = 42 /\
    g' = [Group.all_sprites; Group.enemies].
Proof.
  destruct (slime_walks_off [0; 16; 33] (fst new_slime) (snd new_slime))
    as (e' & g' & Hr & Hx & Hy & Hw & Hh & Hkeep & _).
  - discriminate.
  - vm_compute. discriminate.
  - exists e', g'. split; [exact Hr|].
    repeat split; try assumption.
    apply Hkeep. unfold Rect.right. rewrite Hx, Hw. vm_compute. discriminate.
Defined.


(** X15.  On a slime with two walk images and a frame index of 0 or 1, a
    frame change (more than 180 ms since [last_update]) never raises, flips
    the index to the other frame, shows that frame, and leaves the rect
    alone, so the rect keeps its first size while the image alternates. *)
Theorem slime_walk_cycle (now : Z) (e : Slime.t) (a b : Surface.t) :
  Slime.walk_images e = [a; b] ->
  0 <= Slime.current_frame e <= 1 ->
  180 < now - Slime.last_update e ->
  exists e',
    Slime.animate now e = Ok e' /\
    Slime.current_frame e' = 1 - Slime.current_frame e /\
    Slime.image e' = (if Slime.current_frame e =? 0 then b else a) /\
    Slime.mask e' = Some (Slime.image e') /\
    Slime.last_update e' = now /\
    Slime.rect e' = Slime.rect e.
Proof.
  intros Hw Hc Ht. apply Z.ltb_lt in Ht.
  unfold Slime.animate, Slime.next_frame. rewrite Ht. cbn. rewrite Hw. cbn.
  assert (C : Slime.current_frame e = 0 \/ Slime.current_frame e = 1) by lia.
  destruct C as [-> | ->]; cbn; eexists; repeat split.
Qed.

Lemma slime_walk_cycle_witness :
  exists e',
    Slime.animate 200 some_slime = Ok e' /\
    Slime.current_frame e' = 1 - 0 /\
    Slime.image e' = Surface.mk 76 39 7 false /\
    Slime.mask e' = Some (Slime.image e') /\
    Slime.last_update e' = 200 /\
    Slime.rect e' = Rect.mk 800 463 75 42.
Proof.
  apply (slime_walk_cycle 200 some_slime
           (Surface.mk 75 42 7 false) (Surface.mk 76 39 7 false)).
  - reflexivity.
  - cbn. lia.
  - reflexivity.
Defined.

(** ** Cloud *)

Lemma cloud_init_Some s imgs d1 d2 d3 d4 c :
  Cloud.init s imgs d1 d2 d3 d4 = Some c ->
  exists img pct,
    In img imgs /\ 50 <= pct <= 100 /\
    Rect.w (Cloud.rect c) = Surface.width img /\
    Rect.h (Cloud.rect c) = Surface.height img /\
    Surface.width (Cloud.image c)
    = trunc (inject_Z (Surface.width img) * (inject_Z pct / 100)) /\
    WIDTH s <= Rect.x (Cloud.rect c) < WIDTH s + Surface.width img /\
    0 <= Rect.y (Cloud.rect c) < HEIGHT s - 350 /\
    Cloud.groups c = [Group.all_sprites; Group.clouds].
Proof.
  unfold Cloud.init.
  destruct (choice imgs d1) as [img|] eqn:C; [|discriminate].
  destruct (randrange 50 101 d2) as [pct|] eqn:P; [|discriminate].
  cbn [Rect.of_surface Rect.w Rect.h].
  destruct (randrange (WIDTH s) _ d3) as [x|] eqn:X; [|discriminate].
  destruct (randrange 0 _ d4) as [y|] eqn:Y; [|discriminate].
  intro H; injection H as <-.
  apply choice_In in C. apply randrange_range in P, X, Y.
  exists img, pct. cbn. repeat split; auto; lia.
Qed.

(** X16.  A cloud that [__init__] builds starts wholly right of the screen
    ([WIDTH <= rect.x < WIDTH + rect.w]) in the band [0 <= rect.y <
    HEIGHT - 350], in [all_sprites] and [clouds].  Its rect keeps the size
    of the chosen image as it was before rescaling, while the image shown
    is narrower: between half the rect's width (rounded down) and the full
    width. *)
Theorem cloud_spawn (s : Settings) (imgs : list Surface.t)
    (d_image d_scale d_x d_y : Z) (c : Cloud.t) :
  Cloud.init s imgs d_image d_scale d_x d_y = Some c ->
  WIDTH s <= Rect.x (Cloud.rect c) < WIDTH s + Rect.w (Cloud.rect c) /\
  0 <= Rect.y (Cloud.rect c) < HEIGHT s - 350 /\
  Cloud.groups c = [Group.all_sprites; Group.clouds] /\
  (exists img, In img imgs /\
     Rect.w (Cloud.rect c) = Surface.width img /\
     Rect.h (Cloud.rect c) = Surface.height img) /\
  Rect.w (Cloud.rect c) / 2 <= Surface.width (Cloud.image c)
    <= Rect.w (Cloud.rect c).
Proof.
  intro H.
  apply cloud_init_Some in H
    as (img & pct & Hin & Hp & Hw & Hh & Hi & Hx & Hy & Hg).
  rewrite Hw. split; [exact Hx|]. split; [exact Hy|]. split; [exact Hg|].
  split; [exists img; auto|].
  set (w := Surface.width img) in *.
  assert (Wpos : 0 < w) by lia.
  set (q := (inject_Z w * (inject_Z pct / 100))%Q) in *.
  assert (Q100 : (q * 100 == inject_Z (w * pct))%Q).
  { unfold q. rewrite inject_Z_mult. field. }
  assert (Lo : (inject_Z (w * 50) <= q * 100)%Q).
  { rewrite Q100, <- Zle_Qle. nia. }
  assert (Hi' : (q * 100 <= inject_Z (w * 100))%Q).
  { rewrite Q100, <- Zle_Qle. nia. }
  assert (Q0 : (0 <= q)%Q).
  { assert (0 <= inject_Z (w * 50))%Q
      by (change 0%Q with (inject_Z 0); rewrite <- Zle_Qle; lia).
    lra. }
  pose proof (trunc_bounds q Q0) as [TL TU]. rewrite <- Hi in TL, TU.
  set (t := Surface.width (Cloud.image c)) in *.
  rewrite inject_Z_mult in Lo, Hi'.
  change (inject_Z 50) with 50%Q in Lo. change (inject_Z 100) with 100%Q in Hi'.
  split.
  - assert (L : (inject_Z w < 2 * (inject_Z t + 1))%Q) by lra.
    assert (L' : w < 2 * (t + 1)).
    { rewrite Zlt_Qlt, inject_Z_mult, inject_Z_plus. exact L. }
    assert (w / 2 < t + 1) by (apply Z.div_lt_upper_bound; lia). lia.
  - rewrite Zle_Qle. lra.
Qed.

Lemma cloud_spawn_witness :
  exists c,
    Cloud.init cfg cloud_images 1 7 30 40 = Some c /\
    WIDTH cfg <= Rect.x (Cloud.rect c) < WIDTH cfg + Rect.w (Cloud.rect c) /\
    0 <= Rect.y (Cloud.rect c) < HEIGHT cfg - 350 /\
    Rect.w (Cloud.rect c) / 2 <= Surface.width (Cloud.image c)
      <= Rect.w (Cloud.rect c).
Proof.
  exists (Cloud.mk (Surface.mk 73 35 11 false) (Rect.mk 830 40 129 63)
            [Group.all_sprites; Group.clouds]).
  assert (E : Cloud.init cfg cloud_images 1 7 30 40
              = Some (Cloud.mk (Surface.mk 73 35 11 false)
                        (Rect.mk 830 40 129 63)
                        [Group.all_sprites; Group.clouds]))
    by (vm_compute; reflexivity).
  destruct (cloud_spawn cfg cloud_images 1 7 30 40 _ E)
    as (Hx & Hy & _ & _ & Hw).
  auto.
Defined.

(** X17.  A cloud never moves itself: [update] leaves the rect and the
    image alone and only takes a cloud whose right edge is left of 0 out of
    its groups.  So on a screen of non-negative width a freshly built cloud
    is unchanged by any number of its own [update] calls. *)
Theorem cloud_never_leaves_by_itself (s : Settings) (imgs : list Surface.t)
    (d_image d_scale d_x d_y : Z) (c : Cloud.t) (n : nat) :
  Cloud.init s imgs d_image d_scale d_x d_y = Some c ->
  0 <= WIDTH s ->
  Nat.iter n Cloud.update c = c.
Proof.
  intros H Hw.
  apply cloud_init_Some in H
    as (img & pct & _ & _ & Ew & _ & _ & Hx & _ & _).
  assert (U : Cloud.update c = c).
  { unfold Cloud.update, Rect.right.
    assert (E : (Rect.x (Cloud.rect c) + Rect.w (Cloud.rect c) <? 0) = false)
      by (apply Z.ltb_ge; lia).
    rewrite E. reflexivity. }
  induction n as [|n IH]; [reflexivity|].
  change (Nat.iter (S n) Cloud.update c)
    with (Cloud.update (Nat.iter n Cloud.update c)).
  rewrite IH. exact U.
Qed.

Lemma cloud_never_leaves_by_itself_witness :
  Nat.iter 100 Cloud.update
    (Cloud.mk (Surface.mk 73 35 11 false) (Rect.mk 830 40 129 63)
       [Group.all_sprites; Group.clouds])
  = Cloud.mk (Surface.mk 73 35 11 false) (Rect.mk 830 40 129 63)
      [Group.all_sprites; Group.clouds].
Proof.
  apply (cloud_never_leaves_by_itself cfg cloud_images 1 7 30 40).
  - vm_compute. reflexivity.
  - discriminate.
Defined.

(** ** Platform *)

(** X18.  Building a platform never fails.  Its rect has its top-left
    corner, not its centre, at the given [(x, y)], and is 190 x 47 or
    100 x 50 pixels: half of the 380 x 94 and 200 x 100 crops. *)
Theorem platform_placed_by_corner (sheet : nat) (x y draw : Z) :
  exists pl,
    Platform.init sheet x y draw = Some pl /\
    Rect.x (Platform.rect pl) = x /\
    Rect.y (Platform.rect pl) = y /\
    (Rect.w (Platform.rect pl) = 190 /\ Rect.h (Platform.rect pl) = 47 \/
     Rect.w (Platform.rect pl) = 100 /\ Rect.h (Platform.rect pl) = 50) /\
    Platform.groups pl = [Group.all_sprites; Group.platforms].
Proof.
  destruct (get_image_constants sheet) as (_ & _ & _ & E1 & E2 & E3 & E4).
  unfold Platform.init. rewrite E1, E2, E3, E4.
  cbn [map SpriteSheet.loaded]. unfold choice.
  cbn [length Z.of_nat Pos.of_succ_nat Pos.succ].
  pose proof (Z.mod_pos_bound draw 4 ltac:(lia)) as B.
  assert (C : draw mod 4 = 0 \/ draw mod 4 = 1 \/ draw mod 4 = 2
              \/ draw mod 4 = 3) by lia.
  destruct C as [-> | [-> | [-> | ->]]]; cbn;
    eexists; repeat split; auto.
Qed.

(** ** The dead zone *)

Lemma velocity_step_deadzone s keys p :
  Vector2.x (Player.vel (Player.velocity_step s keys p)) = 0%Q \/
  (0.1 <= Qabs (Vector2.x (Player.vel (Player.velocity_step s keys p))))%Q.
Proof.
  unfold Player.velocity_step, Player.deadzone.
  destruct (Qlt_bool _ 0.1) eqn:E.
  - left. reflexivity.
  - right. apply Qlt_bool_false_iff in E. exact E.
Qed.

Lemma next_frame_running now counted shown p :
  Player.running (state_of (Player.next_frame now counted shown p))
  = Player.running p.
Proof.
  unfold Player.next_frame.
  destruct (_ =? 0); [reflexivity|]. cbn.
  destruct (py_index shown _); reflexivity.
Qed.

(** X20.  After every [update] that returns, [vel.x] is exactly 0 or at
    least 0.1 in magnitude, so the [running] flag the next [animate]
    computes is true only at a speed of 0.1 or more. *)
Theorem update_leaves_no_slow_drift (s : Settings) (keys : Keys)
    (now now' : Z) (p q : Player.t) :
  Player.update s keys now p = Ok q ->
  (Vector2.x (Player.vel q) = 0%Q \/
   (0.1 <= Qabs (Vector2.x (Player.vel q)))%Q) /\
  (Player.running (state_of (Player.animate s now' q)) = true ->
   (0.1 <= Qabs (Vector2.x (Player.vel q)))%Q).
Proof.
  intro H. apply bind_Ok in H as (q1 & _ & H). injection H as <-.
  assert (D := velocity_step_deadzone s keys q1).
  rewrite <- physics_vel in D.
  split; [exact D|].
  intro Hr.
  assert (E : Player.running
                (state_of (Player.animate s now'
                             (Player.physics s keys q1)))
              = negb (Qeq_bool
                        (Vector2.x (Player.vel (Player.physics s keys q1)))
                        0)).
  { unfold Player.animate.
    set (p1 := Player.set_running _ _).
    pose proof (animate_run_preserves Player.running next_frame_running
                  s now' p1) as R1.
    destruct (Player.animate_run s now' p1) as [a|x a];
      unfold bind, state_of in *; [|exact R1].
    pose proof (animate_idle_preserves Player.running next_frame_running
                  s now' a) as R2.
    destruct (Player.animate_idle s now' a) as [b|x b];
      unfold state_of in *; cbn; rewrite ?R2, R1; reflexivity. }
  rewrite E in Hr. apply negb_true_iff in Hr.
  destruct D as [D | D]; [|exact D].
  rewrite D in Hr. discriminate Hr.
Qed.

Lemma update_leaves_no_slow_drift_witness :
  (Vector2.x (Player.vel edge_tick1) = 0%Q \/
   (0.1 <= Qabs (Vector2.x (Player.vel edge_tick1)))%Q) /\
  (0.1 <= Qabs (Vector2.x (Player.vel edge_tick1)))%Q.
Proof.
  destruct (update_leaves_no_slow_drift cfg left_key 0 16
              edge_player edge_tick1) as [D R].
  - vm_compute. reflexivity.
  - split; [exact D|]. apply R. vm_compute. reflexivity.
Defined.
